(** * qa4sm-reader: variable-name decoding and metadata resolution

    A shallow embedding of [qa4smreader/ncplot.py]: [_get_meta] with its
    nested [_get_pretty_name], [_get_varmeta], [_get_metrics],
    [get_metrics] and [_get_var], together with the fragment of Python's
    [re] module those functions rely on.

    Conventions.
    - A Python [str] is a [string]; a character is read as the code point
      of the same number, so the development covers the strings whose code
      points are below 256.
    - A Python [dict] whose order is irrelevant is a [gmap]; the dict built
      by [_get_varmeta], whose key order decides the order of the metrics,
      is an association list in insertion order.
    - Exceptions are values of [exn]; a computation that may raise returns
      a [result].  [_get_meta] mutates a local dict and subscripts
      [ds.attrs]; both are threaded through the state of the monad [M].
    - [re] is modelled by a backtracking matcher over the expressions that
      [Re.compile] yields; [ReFacts] relates it to what a match is. *)

From Stdlib Require Import Ascii String ZArith NArith Bool Lia.
From stdpp Require Import base decidable option list gmap strings pretty.

Local Open Scope string_scope.
Local Open Scope list_scope.

(** ** Characters *)

Module Char.

Definition code (c : ascii) : N := N_of_ascii c.

Definition between (lo hi : N) (c : ascii) : bool :=
  ((lo <=? code c) && (code c <=? hi))%N.

(** [\d]: the decimal digits (category Nd); below 256 these are 0-9. *)
Definition is_digit (c : ascii) : bool := between 48 57 c.

(** [\s]: below 256 the white space of [str.isspace]. *)
Definition is_space (c : ascii) : bool :=
  between 9 13 c || between 28 32 c || (code c =? 133)%N || (code c =? 160)%N.

(** Lower-casing as used by [re.IGNORECASE]; below 256 the cased letters
    are A-Z and the block 192-222 without the multiplication sign. *)
Definition is_upper (c : ascii) : bool :=
  between 65 90 c || (between 192 222 c && negb (code c =? 215)%N).

Definition lower (c : ascii) : ascii :=
  if is_upper c then ascii_of_N (code c + 32) else c.

Definition is_alpha_ (c : ascii) : bool :=
  between 65 90 c || between 97 122 c || (code c =? 95)%N.

End Char.

(** ** The fragment of [re] *)

Module Re.

(** Character classes of the fragment: [\d], [\D], [\s], [\S] and [.]. *)
Inductive cls := CDigit | CNonDigit | CSpace | CNonSpace | CAny.

Definition in_cls (k : cls) (c : ascii) : bool :=
  match k with
  | CDigit => Char.is_digit c
  | CNonDigit => negb (Char.is_digit c)
  | CSpace => Char.is_space c
  | CNonSpace => negb (Char.is_space c)
  | CAny => negb (Char.code c =? 10)%N
  end.

Inductive regex :=
  | RLit (c : ascii)
  | RCls (k : cls)
  | RBol
  | REol
  | REmpty
  | RSeq (r1 r2 : regex)
  | RAlt (r1 r2 : regex)
  | RStar (r : regex)
  | RPlus (r : regex)
  | ROpt (r : regex)
  | RGroup (n : nat) (r : regex).

(** The state of a match attempt: the position in the subject, the text
    still to be read and the groups captured so far. *)
Record mstate := MState {
  pos : nat;
  rest : list ascii;
  caps : gmap nat (list ascii) }.

Definition advance (st : mstate) (tl : list ascii) : mstate :=
  MState (S (pos st)) tl (caps st).

Definition set_cap (n : nat) (st0 st1 : mstate) : mstate :=
  MState (pos st1) (rest st1)
         (<[n := take (pos st1 - pos st0) (rest st0)]> (caps st1)).

(** A literal under the flag [re.I] compares lower-cased characters. *)
Definition lit_eq (ic : bool) (c ch : ascii) : bool :=
  if ic then bool_decide (Char.lower c = Char.lower ch)
  else bool_decide (c = ch).

Definition at_end (l : list ascii) : bool :=
  match l with
  | [] => true
  | [c] => (Char.code c =? 10)%N
  | _ => false
  end.

Definition orelse {A} (o1 o2 : option A) : option A :=
  match o1 with Some x => Some x | None => o2 end.

(** The backtracking matcher, in continuation-passing style: the
    alternatives are tried in the order of the engine (left branch first,
    one more iteration first), and the first complete match wins.  A
    repetition whose body consumed nothing is not iterated again. *)
Fixpoint bt (ic : bool) (r : regex) (st : mstate)
    (k : mstate -> option mstate) {struct r} : option mstate :=
  let star r1 :=
    fix loop (fuel : nat) (st : mstate) {struct fuel} : option mstate :=
      match fuel with
      | O => k st
      | S fuel' =>
          orelse
            (bt ic r1 st (fun st1 =>
               if (pos st <? pos st1)%nat then loop fuel' st1 else None))
            (k st)
      end in
  match r with
  | RLit c =>
      match rest st with
      | ch :: tl => if lit_eq ic c ch then k (advance st tl) else None
      | [] => None
      end
  | RCls kl =>
      match rest st with
      | ch :: tl => if in_cls kl ch then k (advance st tl) else None
      | [] => None
      end
  | RBol => if (pos st =? 0)%nat then k st else None
  | REol => if at_end (rest st) then k st else None
  | REmpty => k st
  | RSeq r1 r2 => bt ic r1 st (fun st1 => bt ic r2 st1 k)
  | RAlt r1 r2 => orelse (bt ic r1 st k) (bt ic r2 st k)
  | RStar r1 => star r1 (S (length (rest st))) st
  | RPlus r1 =>
      bt ic r1 st (fun st1 => star r1 (S (length (rest st1))) st1)
  | ROpt r1 => orelse (bt ic r1 st k) (k st)
  | RGroup n r1 => bt ic r1 st (fun st1 => k (set_cap n st st1))
  end.

(** [pattern.match(s)]: a match that starts at position 0. *)
Definition match_ (ic : bool) (r : regex) (s : list ascii) : option mstate :=
  bt ic r (MState 0 s ∅) Some.

(** [pattern.search(s)]: the first position from which a match starts. *)
Fixpoint search_from (ic : bool) (r : regex) (p : nat) (s : list ascii)
    : option mstate :=
  match bt ic r (MState p s ∅) Some with
  | Some m => Some m
  | None =>
      match s with
      | [] => None
      | _ :: tl => search_from ic r (S p) tl
      end
  end.

Definition search (ic : bool) (r : regex) (s : list ascii) : option mstate :=
  search_from ic r 0 s.

(** *** What a match is

    [matches ic r st st']: read from the state [st], the expression [r]
    can stop in the state [st'].  The matcher returns one of these ways
    (the one its search order meets first). *)
Inductive matches (ic : bool) : regex -> mstate -> mstate -> Prop :=
  | m_lit c ch tl st :
      rest st = ch :: tl -> lit_eq ic c ch = true ->
      matches ic (RLit c) st (advance st tl)
  | m_cls kl ch tl st :
      rest st = ch :: tl -> in_cls kl ch = true ->
      matches ic (RCls kl) st (advance st tl)
  | m_bol st : pos st = 0%nat -> matches ic RBol st st
  | m_eol st : at_end (rest st) = true -> matches ic REol st st
  | m_empty st : matches ic REmpty st st
  | m_seq r1 r2 st st1 st2 :
      matches ic r1 st st1 -> matches ic r2 st1 st2 ->
      matches ic (RSeq r1 r2) st st2
  | m_alt_l r1 r2 st st1 :
      matches ic r1 st st1 -> matches ic (RAlt r1 r2) st st1
  | m_alt_r r1 r2 st st1 :
      matches ic r2 st st1 -> matches ic (RAlt r1 r2) st st1
  | m_star_stop r st : matches ic (RStar r) st st
  | m_star_more r st st1 st2 :
      matches ic r st st1 -> (pos st < pos st1)%nat ->
      matches ic (RStar r) st1 st2 ->
      matches ic (RStar r) st st2
  | m_plus r st st1 st2 :
      matches ic r st st1 -> matches ic (RStar r) st1 st2 ->
      matches ic (RPlus r) st st2
  | m_opt_some r st st1 :
      matches ic r st st1 -> matches ic (ROpt r) st st1
  | m_opt_none r st : matches ic (ROpt r) st st
  | m_group n r st st1 :
      matches ic r st st1 -> matches ic (RGroup n r) st (set_cap n st st1).

(** *** Compiling a pattern string

    The fragment: literals, [.], [^], [$], [|], groups [( )] and
    [(?P<name> )], the greedy quantifiers [*], [+], [?], the classes [\d],
    [\D], [\s], [\S] and escaped punctuation.  [compile] is [None] on
    every other pattern: the ones [re] rejects and the ones outside the
    fragment (among them a [*] or [+] over a body that can match the empty
    string). *)

Fixpoint nullable (r : regex) : bool :=
  match r with
  | RLit _ | RCls _ => false
  | RBol | REol | REmpty => true
  | RSeq r1 r2 => nullable r1 && nullable r2
  | RAlt r1 r2 => nullable r1 || nullable r2
  | RStar _ | ROpt _ => true
  | RPlus r1 => nullable r1
  | RGroup _ r1 => nullable r1
  end.

Definition repeatable (r : regex) : bool :=
  match r with
  | RStar _ | RPlus _ | ROpt _ | RBol | REol | REmpty => false
  | _ => true
  end.

Fixpoint seq_of (l : list regex) : regex :=
  match l with
  | [] => REmpty
  | [r] => r
  | r :: l' => RSeq r (seq_of l')
  end.

Fixpoint alt_of (l : list regex) : regex :=
  match l with
  | [] => REmpty
  | [r] => r
  | r :: l' => RAlt r (alt_of l')
  end.

(** An open group: its number, the branches already closed by [|] and the
    items of the current branch, both latest first. *)
Record frame := Frame {
  f_grp : nat;
  f_alts : list regex;
  f_seq : list regex }.

Definition close_frame (f : frame) : regex :=
  alt_of (rev (seq_of (rev (f_seq f)) :: f_alts f)).

Definition push_item (r : regex) (f : frame) : frame :=
  Frame (f_grp f) (f_alts f) (r :: f_seq f).

Inductive mode :=
  | MNormal
  | MEsc
  | MOpen
  | MExtQ
  | MExtP
  | MName (name : list ascii).

Record pstate := PState {
  p_mode : mode;
  p_top : frame;
  p_stack : list frame;
  p_ngroups : nat;
  p_names : list (list ascii) }.

Definition with_mode (m : mode) (st : pstate) : pstate :=
  PState m (p_top st) (p_stack st) (p_ngroups st) (p_names st).

Definition with_top (f : frame) (st : pstate) : pstate :=
  PState (p_mode st) f (p_stack st) (p_ngroups st) (p_names st).

Definition add_item (r : regex) (st : pstate) : pstate :=
  with_top (push_item r (p_top st)) st.

Definition quantify (q : regex -> regex) (reject_nullable : bool)
    (st : pstate) : option pstate :=
  match f_seq (p_top st) with
  | [] => None
  | r :: l =>
      if repeatable r && negb (reject_nullable && nullable r)
      then Some (with_top (Frame (f_grp (p_top st)) (f_alts (p_top st))
                                 (q r :: l)) st)
      else None
  end.

Definition step_normal (st : pstate) (c : ascii) : option pstate :=
  match c with
  | "\"%char => Some (with_mode MEsc st)
  | "("%char =>
      Some (PState MOpen (Frame (S (p_ngroups st)) [] [])
                   (p_top st :: p_stack st) (S (p_ngroups st)) (p_names st))
  | ")"%char =>
      match p_stack st with
      | [] => None
      | parent :: stack =>
          Some (PState MNormal
                  (push_item
                     (RGroup (f_grp (p_top st)) (close_frame (p_top st)))
                     parent)
                  stack (p_ngroups st) (p_names st))
      end
  | "|"%char =>
      Some (with_top
              (Frame (f_grp (p_top st))
                     (seq_of (rev (f_seq (p_top st))) :: f_alts (p_top st))
                     []) st)
  | "*"%char => quantify RStar true st
  | "+"%char => quantify RPlus true st
  | "?"%char => quantify ROpt false st
  | "."%char => Some (add_item (RCls CAny) st)
  | "^"%char => Some (add_item RBol st)
  | "$"%char => Some (add_item REol st)
  | "["%char | "{"%char => None
  | _ => Some (add_item (RLit c) st)
  end.

Definition step_escape (st : pstate) (c : ascii) : option pstate :=
  let st := with_mode MNormal st in
  match c with
  | "d"%char => Some (add_item (RCls CDigit) st)
  | "D"%char => Some (add_item (RCls CNonDigit) st)
  | "s"%char => Some (add_item (RCls CSpace) st)
  | "S"%char => Some (add_item (RCls CNonSpace) st)
  | _ =>
      if Char.between 65 90 c || Char.between 97 122 c || Char.is_digit c
      then None
      else Some (add_item (RLit c) st)
  end.

Definition step_name (name : list ascii) (st : pstate) (c : ascii)
    : option pstate :=
  match c with
  | ">"%char =>
      match name with
      | [] => None
      | _ =>
          if bool_decide (name ∈ p_names st) then None
          else Some (PState MNormal (p_top st) (p_stack st) (p_ngroups st)
                            (name :: p_names st))
      end
  | _ =>
      if Char.is_alpha_ c || (Char.is_digit c && negb (bool_decide (name = [])))
      then Some (with_mode (MName (name ++ [c])) st)
      else None
  end.

Definition step (st : pstate) (c : ascii) : option pstate :=
  match p_mode st with
  | MNormal => step_normal st c
  | MEsc => step_escape st c
  | MOpen =>
      match c with
      | "?"%char => Some (with_mode MExtQ st)
      | _ => step_normal (with_mode MNormal st) c
      end
  | MExtQ =>
      match c with "P"%char => Some (with_mode MExtP st) | _ => None end
  | MExtP =>
      match c with "<"%char => Some (with_mode (MName []) st) | _ => None end
  | MName name => step_name name st c
  end.

Fixpoint steps (st : pstate) (l : list ascii) : option pstate :=
  match l with
  | [] => Some st
  | c :: l' =>
      match step st c with
      | Some st' => steps st' l'
      | None => None
      end
  end.

Definition finish (st : pstate) : option regex :=
  match p_mode st, p_stack st with
  | MNormal, [] => Some (close_frame (p_top st))
  | _, _ => None
  end.

Definition init : pstate := PState MNormal (Frame 0 [] []) [] 0 [].

(** [re.compile(s)] on the fragment. *)
Definition compile (s : string) : option regex :=
  match steps init (list_ascii_of_string s) with
  | Some st => finish st
  | None => None
  end.

(** The text of group [n] of a match, [None] when the group took no part. *)
Definition group (m : mstate) (n : nat) : option string :=
  string_of_list_ascii <$> caps m !! n.

End Re.

(** ** Values, exceptions and the monad of [_get_meta] *)

(** The values stored in the dict [meta]. *)
Inductive val :=
  | VNone
  | VStr (s : string)
  | VInt (z : Z).

Global Instance val_eq_dec : EqDecision val.
Proof. solve_decision. Defined.

Inductive exn :=
  | Exception (msg : string)
  | KeyError
  | AttributeError
  | ValueError
  | TypeError.

Inductive result (A : Type) :=
  | Ok (a : A)
  | Raise (e : exn).
Arguments Ok {A} a.
Arguments Raise {A} e.

Global Instance result_ret : MRet result := fun _ a => Ok a.
Global Instance result_bind : MBind result := fun _ _ f m =>
  match m with
  | Ok a => f a
  | Raise e => Raise e
  end.

Definition is_KeyError (e : exn) : bool :=
  match e with KeyError => true | _ => false end.
Definition is_AttributeError (e : exn) : bool :=
  match e with AttributeError => true | _ => false end.

(** The local dict [meta] of [_get_meta], and the keys of [ds.attrs] that
    were subscripted so far, in order. *)
Record locals := Locals {
  meta : gmap string val;
  reads : list string }.

(** Computations over a mutable state [S] that may raise. *)
Definition ST (S A : Type) : Type := S -> result A * S.

Global Instance ST_ret {S} : MRet (ST S) := fun _ a s => (Ok a, s).
Global Instance ST_bind {S} : MBind (ST S) := fun _ _ f m s =>
  match m s with
  | (Ok a, s') => f a s'
  | (Raise e, s') => (Raise e, s')
  end.

Definition raise {S A} (e : exn) : ST S A := fun s => (Raise e, s).

Abbreviation M := (ST locals).

(** [try: body except E: handler]; the handler runs in the state the body
    left behind, any other exception passes through. *)
Definition try_except {S A} (body : ST S A) (E : exn -> bool)
    (handler : ST S A) : ST S A := fun s =>
  match body s with
  | (Raise e, s') => if E e then handler s' else (Raise e, s')
  | r => r
  end.

(** [for x in xs: body]. *)
Fixpoint for_ {S A} (xs : list A) (body : A -> ST S unit) : ST S unit :=
  match xs with
  | [] => mret tt
  | x :: xs' => body x;; for_ xs' body
  end.

(** [meta = dict()], [meta[k] = v], [meta[k]] and [return meta]. *)
Definition meta_new : M unit := fun s => (Ok tt, Locals ∅ (reads s)).
Definition meta_set (k : string) (v : val) : M unit := fun s =>
  (Ok tt, Locals (<[k := v]> (meta s)) (reads s)).
Definition meta_get (k : string) : M val := fun s =>
  (match meta s !! k with Some v => Ok v | None => Raise KeyError end, s).
Definition meta_return : M (gmap string val) := fun s => (Ok (meta s), s).

(** The characters of a [str]. *)
Definition chars (s : string) : list ascii := list_ascii_of_string s.

(** [str(n)] for an integer. *)
Definition str (n : Z) : string := pretty n.

(** [n - 1]. *)
Definition sub1 (n : val) : M Z :=
  match n with
  | VInt z => mret (z - 1)%Z
  | _ => raise TypeError
  end.

Definition digit_value (c : ascii) : Z := Z.of_N (Char.code c) - 48.

Definition digits_value (l : list ascii) : Z :=
  fold_left (fun acc c => 10 * acc + digit_value c)%Z l 0%Z.

(** [int(s)] for a string, in base 10: white space around the number is
    dropped, a sign may lead, and single underscores may separate digits. *)
Fixpoint lstrip (l : list ascii) : list ascii :=
  match l with
  | c :: l' => if Char.is_space c then lstrip l' else l
  | [] => []
  end.

Definition strip (l : list ascii) : list ascii :=
  rev (lstrip (rev (lstrip l))).

Fixpoint scan_digits (acc : Z) (after_digit : bool) (l : list ascii)
    : option Z :=
  match l with
  | [] => if after_digit then Some acc else None
  | c :: l' =>
      if Char.is_digit c
      then scan_digits (10 * acc + digit_value c) true l'
      else if bool_decide (c = "_"%char) && after_digit
      then scan_digits acc false l'
      else None
  end.

Definition int_literal (s : string) : option Z :=
  match strip (chars s) with
  | c :: l =>
      if bool_decide (c = "+"%char) then scan_digits 0 false l
      else if bool_decide (c = "-"%char) then Z.opp <$> scan_digits 0 false l
      else scan_digits 0 false (c :: l)
  | [] => None
  end.

(** [int(v)]. *)
Definition int (v : val) : M val :=
  match v with
  | VStr s =>
      match int_literal s with
      | Some z => mret (VInt z)
      | None => raise ValueError
      end
  | VInt z => mret (VInt z)
  | VNone => raise TypeError
  end.

(** ** The dataset *)

(** What the functions read of an [xarray.Dataset]: the names of its data
    variables, in order, and its global attributes. *)
Record Dataset := {
  data_vars : list string;
  attrs : gmap string string }.

(** [ds.attrs[k]]; the subscript is recorded in [reads]. *)
Definition attrs_getitem (ds : Dataset) (k : string) : M val := fun s =>
  (match attrs ds !! k with Some v => Ok (VStr v) | None => Raise KeyError end,
   Locals (meta s) (reads s ++ [k])).

(** [table[k]] for a table of [globals] keyed by strings. *)
Definition table_getitem (t : gmap string string) (k : val) : M val :=
  match k with
  | VStr s =>
      match t !! s with
      | Some v => mret (VStr v)
      | None => raise KeyError
      end
  | _ => raise KeyError
  end.

(** [match.group(n)] for the result [m] of [pattern.match]. *)
Definition match_group (m : option Re.mstate) (n : nat) : M val :=
  match m with
  | None => raise AttributeError
  | Some m =>
      mret (match Re.group m n with Some s => VStr s | None => VNone end)
  end.

(** [globals.index_names]. *)
Definition index_names : list string := ["lat"; "lon"].

(** The pattern compiled in [_get_meta]. *)
Definition pattern_source : string :=
  "(\D+)_between_(\d+)-(\S+)_(\d+)-(?P<dataset>\S+)".

Definition pattern : Re.regex :=
  Eval vm_compute in default Re.REmpty (Re.compile pattern_source).

(** [globals._dataset_pretty_names] and
    [globals._dataset_version_pretty_names], the two tables that
    [_get_pretty_name] falls back to.  [globals.py] binds neither name, so
    reading the attribute of the module raises [AttributeError] before
    anything is subscripted. *)
Definition _dataset_pretty_names : M (gmap string string) :=
  raise AttributeError.

Definition _dataset_version_pretty_names : M (gmap string string) :=
  raise AttributeError.

Section ncplot.

Definition _get_pretty_name (ds : Dataset) (name number : val)
    : M (val * val * val) :=
  pretty_name ←
    try_except
      (n ← sub1 number;
       attrs_getitem ds ("val_dc_pretty_name" +:+ str n))
      is_KeyError
      (try_except
         (table ← _dataset_pretty_names; table_getitem table name)
         is_KeyError
         (mret name));
  '(version, version_pretty_name) ←
    try_except
      (n ← sub1 number;
       version ← attrs_getitem ds ("val_dc_version" +:+ str n);
       version_pretty_name ←
         try_except
           (n ← sub1 number;
            attrs_getitem ds ("val_dc_version_pretty_name" +:+ str n))
           is_KeyError
           (try_except
              (table ← _dataset_version_pretty_names;
               table_getitem table version)
              is_KeyError
              (mret version));
       mret (version, version_pretty_name))
      is_KeyError
      (mret (VStr "unknown", VStr "unknown version"));
  mret (pretty_name, version, version_pretty_name).

Definition not_contained (var : string) : string :=
  "The given var '" +:+ var +:+ "' is not contained in the dataset.".

Definition no_match (var : string) : string :=
  "The given var '" +:+ var +:+ "' does not match the regex pattern.".

Definition _get_meta_body (ds : Dataset) (var : string)
    : M (gmap string val) :=
  if negb (bool_decide (var ∈ data_vars ds))
  then raise (Exception (not_contained var))
  else
    meta_new;;
    try_except
      (let match_ := Re.match_ false pattern (chars var) in
       g ← match_group match_ 1; meta_set "metric" g;;
       g ← match_group match_ 2; n ← int g; meta_set "ref_no" n;;
       g ← match_group match_ 3; meta_set "ref" g;;
       g ← match_group match_ 4; n ← int g; meta_set "ds_no" n;;
       g ← match_group match_ 5; meta_set "ds" g)
      is_AttributeError
      (if bool_decide (var = "n_obs")
       then
         meta_set "metric" (VStr "n_obs");;
         meta_set "ref_no" (VInt 1);;
         meta_set "ref" (VStr "GLDAS");;
         meta_set "ds_no" (VInt 1);;
         meta_set "ds" (VStr "GLDAS")
       else raise (Exception (no_match var)));;
    for_ ["ds"; "ref"] (fun i =>
      name ← meta_get i;
      number ← meta_get (i +:+ "_no");
      '(pretty_name, version, version_pretty_name) ←
        _get_pretty_name ds name number;
      meta_set (i +:+ "_pretty_name") pretty_name;;
      meta_set (i +:+ "_version") version;;
      meta_set (i +:+ "_version_pretty_name") version_pretty_name);;
    meta_return.

Definition start : locals := Locals ∅ [].

(** [_get_meta(ds, var)]: the value returned or the exception raised. *)
Definition _get_meta (ds : Dataset) (var : string)
    : result (gmap string val) :=
  fst (_get_meta_body ds var start).

(** The keys of [ds.attrs] subscripted during [_get_meta(ds, var)]. *)
Definition _get_meta_reads (ds : Dataset) (var : string) : list string :=
  reads (snd (_get_meta_body ds var start)).

(** [l.remove(x)]: the first occurrence goes, [ValueError] without one. *)
Fixpoint list_remove {A} `{EqDecision A} (x : A) (l : list A)
    : result (list A) :=
  match l with
  | [] => Raise ValueError
  | y :: l' =>
      if decide (y = x) then Ok l'
      else l'' ← list_remove x l'; Ok (y :: l'')
  end.

(** A dict in insertion order: [d[k] = v] keeps the place of a key that is
    already there and appends a new one. *)
Fixpoint odict_set {V} (k : string) (v : V) (d : list (string * V))
    : list (string * V) :=
  match d with
  | [] => [(k, v)]
  | (k', v') :: d' =>
      if decide (k' = k) then (k, v) :: d' else (k', v') :: odict_set k v d'
  end.

Fixpoint odict_get {V} (d : list (string * V)) (k : string) : result V :=
  match d with
  | [] => Raise KeyError
  | (k', v) :: d' => if decide (k' = k) then Ok v else odict_get d' k
  end.

Definition dict_get (d : gmap string val) (k : string) : result val :=
  match d !! k with Some v => Ok v | None => Raise KeyError end.

(** The variables [_get_varmeta] takes when none are given: all data
    variables without [lat], [lon] and [gpi]; an index that is not there
    gives a warning (second component) and is skipped. *)
Fixpoint remove_indices (variables : list string) (indices : list string)
    : list string * list string :=
  match indices with
  | [] => (variables, [])
  | index :: indices' =>
      match list_remove index variables with
      | Ok variables' => remove_indices variables' indices'
      | Raise _ =>
          let '(vs, ws) := remove_indices variables indices' in
          (vs, (index +:+ " is not in variables.") :: ws)
      end
  end.

(** [{var: _get_meta(ds, var) for var in variables}]. *)
Fixpoint comprehension (ds : Dataset) (variables : list string)
    (acc : list (string * gmap string val))
    : result (list (string * gmap string val)) :=
  match variables with
  | [] => Ok acc
  | var :: variables' =>
      m ← _get_meta ds var;
      comprehension ds variables' (odict_set var m acc)
  end.

Definition _get_varmeta (ds : Dataset) (variables : option (list string))
    : result (list (string * gmap string val)) :=
  let variables :=
    match variables with
    | None | Some [] =>
        fst (remove_indices (data_vars ds) (index_names ++ ["gpi"]))
    | Some vs => vs
    end in
  comprehension ds variables [].

Fixpoint metrics_loop (varmeta : list (string * gmap string val))
    (keys : list string) (metrics : list val) : result (list val) :=
  match keys with
  | [] => Ok metrics
  | var :: keys' =>
      m ← odict_get varmeta var;
      x ← dict_get m "metric";
      metrics_loop varmeta keys'
        (if bool_decide (x ∈ metrics) then metrics else metrics ++ [x])
  end.

Definition _get_metrics (ds : Dataset) : result (list val) :=
  varmeta ← _get_varmeta ds None;
  metrics_loop varmeta (fst <$> varmeta) [].

(** [metrics.remove(x)] on the list held in the state. *)
Definition metrics_remove (x : val) : ST (list val) unit := fun metrics =>
  match list_remove x metrics with
  | Ok metrics' => (Ok tt, metrics')
  | Raise e => (Raise e, metrics)
  end.

(** [get_metrics], as a function of the dataset the file holds. *)
Definition get_metrics (ds : Dataset) : result (list val) :=
  metrics ← _get_metrics ds;
  Ok (snd (try_except
             (metrics_remove (VStr "tau");; metrics_remove (VStr "p_tau"))
             (fun _ => true)
             (mret tt)
             metrics)).

(** [re.search(pat, s, re.I)] as a truth value; [None] when [pat] is
    outside the fragment of [Re.compile]. *)
Definition re_search_I (pat s : string) : option bool :=
  r ← Re.compile pat;
  Some (bool_decide (is_Some (Re.search true r (chars s)))).

(** [[var for var in vars if re.search(pat, var, re.I)]]. *)
Fixpoint select (pat : string) (vars : list string) : option (list string) :=
  match vars with
  | [] => Some []
  | var :: vars' =>
      b ← re_search_I pat var;
      l ← select pat vars';
      Some (if b : bool then var :: l else l)
  end.

(** [_get_var(ds, metric)].  The metric goes into the pattern as it is;
    [None] stands for a pattern outside the fragment of [Re.compile], on
    which the model gives no answer. *)
Definition _get_var (ds : Dataset) (metric : string)
    : option (list string) :=
  if bool_decide (metric = "n_obs") then Some [metric]
  else select ("^" +:+ metric +:+ "_between") (data_vars ds).

End ncplot.

(** ** The vocabulary of the statements *)

(** The loop of a repetition, as [Re.bt] unfolds it. *)
Definition star_loop (ic : bool) (r1 : Re.regex)
    (k : Re.mstate -> option Re.mstate)
    : nat -> Re.mstate -> option Re.mstate :=
  fix loop (fuel : nat) (st : Re.mstate) {struct fuel} : option Re.mstate :=
    match fuel with
    | O => k st
    | S fuel' =>
        Re.orelse
          (Re.bt ic r1 st (fun st1 =>
             if (Re.pos st <? Re.pos st1)%nat then loop fuel' st1 else None))
          (k st)
    end.

(** [r] can read from [st] up to the text [tl]. *)
Definition reads_to (ic : bool) (r : Re.regex) (st : Re.mstate)
    (tl : list ascii) : Prop :=
  exists st', Re.matches ic r st st' /\ Re.rest st' = tl.

(** The shape of a text: five runs, separated as the pattern says. *)
Definition between_shape (l g1 g2 g3 g4 g5 tl : list ascii) : Prop :=
  l = g1 ++ chars "_between_" ++ g2 ++ chars "-" ++ g3 ++ chars "_" ++ g4
        ++ chars "-" ++ g5 ++ tl /\
  (g1 <> [] /\ forallb (Re.in_cls Re.CNonDigit) g1 = true) /\
  (g2 <> [] /\ forallb (Re.in_cls Re.CDigit) g2 = true) /\
  (g3 <> [] /\ forallb (Re.in_cls Re.CNonSpace) g3 = true) /\
  (g4 <> [] /\ forallb (Re.in_cls Re.CDigit) g4 = true) /\
  (g5 <> [] /\ forallb (Re.in_cls Re.CNonSpace) g5 = true).

(** How a variable name is decoded: by the pattern, or as [n_obs]. *)
Inductive decodes (var : string)
    : string -> Z -> string -> Z -> string -> Prop :=
  | decodes_between m g1 g2 g3 g4 g5 :
      Re.match_ false pattern (chars var) = Some m ->
      Re.caps m = <[5%nat := g5]> (<[4%nat := g4]> (<[3%nat := g3]>
                    (<[2%nat := g2]> (<[1%nat := g1]> ∅)))) ->
      (g2 <> [] /\ forallb Char.is_digit g2 = true) ->
      (g4 <> [] /\ forallb Char.is_digit g4 = true) ->
      decodes var (string_of_list_ascii g1) (digits_value g2)
        (string_of_list_ascii g3) (digits_value g4) (string_of_list_ascii g5)
  | decodes_n_obs :
      var = "n_obs" -> decodes var "n_obs" 1 "GLDAS" 1 "GLDAS".

(** The names [_get_meta] can decode. *)
Definition decodable (var : string) : Prop :=
  var = "n_obs" \/ is_Some (Re.match_ false pattern (chars var)).

(** The decimal reading of a string of digits. *)
Definition decimal (s : string) : Z := digits_value (chars s).

Definition is_decimal (s : string) : Prop :=
  chars s <> [] /\ forallb Char.is_digit (chars s) = true.

Definition pretty_key (k : Z) : string := "val_dc_pretty_name" +:+ str (k - 1).
Definition version_key (k : Z) : string := "val_dc_version" +:+ str (k - 1).
Definition version_pretty_key (k : Z) : string :=
  "val_dc_version_pretty_name" +:+ str (k - 1).

(** What [_get_pretty_name] finds in the attributes for the number [k].
    It returns only when it never comes to a table of [globals]: the pretty
    name is an attribute, and so is the version pretty name when the
    version is one. *)
Definition named (ds : Dataset) (k : Z) : bool :=
  match attrs ds !! pretty_key k with
  | None => false
  | Some _ =>
      match attrs ds !! version_key k with
      | None => true
      | Some _ => bool_decide (is_Some (attrs ds !! version_pretty_key k))
      end
  end.

Definition pretty_name_of (ds : Dataset) (k : Z) : string :=
  default EmptyString (attrs ds !! pretty_key k).

Definition version_of (ds : Dataset) (k : Z) : string :=
  default "unknown" (attrs ds !! version_key k).

Definition version_pretty_name_of (ds : Dataset) (k : Z) : string :=
  match attrs ds !! version_key k with
  | Some _ => default EmptyString (attrs ds !! version_pretty_key k)
  | None => "unknown version"
  end.

(** The keys one call of [_get_pretty_name] subscripts, in order. *)
Definition keys_read (ds : Dataset) (k : Z) : list string :=
  pretty_key k ::
  match attrs ds !! pretty_key k with
  | None => []
  | Some _ =>
      version_key k ::
      match attrs ds !! version_key k with
      | Some _ => [version_pretty_key k]
      | None => []
      end
  end.

(** The dict after the name is decoded, and the dict returned. *)
Definition head_meta (metric : string) (ref_no : Z) (ref : string)
    (ds_no : Z) (dsn : string) : gmap string val :=
  <["ds" := VStr dsn]> (<["ds_no" := VInt ds_no]> (<["ref" := VStr ref]>
    (<["ref_no" := VInt ref_no]> (<["metric" := VStr metric]> ∅)))).

Definition resolved (ds : Dataset) (metric : string) (ref_no : Z)
    (ref : string) (ds_no : Z) (dsn : string) : gmap string val :=
  <["ref_version_pretty_name" := VStr (version_pretty_name_of ds ref_no)]>
  (<["ref_version" := VStr (version_of ds ref_no)]>
  (<["ref_pretty_name" := VStr (pretty_name_of ds ref_no)]>
  (<["ds_version_pretty_name" := VStr (version_pretty_name_of ds ds_no)]>
  (<["ds_version" := VStr (version_of ds ds_no)]>
  (<["ds_pretty_name" := VStr (pretty_name_of ds ds_no)]>
  (head_meta metric ref_no ref ds_no dsn)))))).

(** The outcome of [_get_meta] on a name that decodes to these fields:
    the dict, or [AttributeError] when one of the two roles comes to a
    table of [globals]. *)
Definition outcome (ds : Dataset) (metric : string) (ref_no : Z)
    (ref : string) (ds_no : Z) (dsn : string) : result (gmap string val) :=
  if named ds ds_no && named ds ref_no
  then Ok (resolved ds metric ref_no ref ds_no dsn)
  else Raise AttributeError.

(** The keys [_get_meta] subscripts: the role [ds] comes first, and [ref]
    only when [ds] went through. *)
Definition resolved_reads (ds : Dataset) (ref_no ds_no : Z) : list string :=
  keys_read ds ds_no ++ (if named ds ds_no then keys_read ds ref_no else []).

(** The characters with a meaning of their own in a pattern, and the
    metric names without any. *)
Definition special (c : ascii) : bool :=
  bool_decide (c ∈ chars "\()|*+?.^$[{").

Definition plain (metric : string) : Prop :=
  forallb (fun c => negb (special c)) (chars metric) = true.

(** [s] begins with [p], letter case apart. *)
Fixpoint begins_I (p s : list ascii) : bool :=
  match p, s with
  | [], _ => true
  | c :: p', ch :: s' =>
      bool_decide (Char.lower c = Char.lower ch) && begins_I p' s'
  | _ :: _, [] => false
  end.

Definition begins_with_I (p s : string) : bool :=
  begins_I (chars p) (chars s).

(** The state [n] characters further on. *)
Definition skip (n : nat) (st : Re.mstate) : Re.mstate :=
  Re.MState (Re.pos st + n) (drop n (Re.rest st)) (Re.caps st).

(** ** Example data *)

Definition example_var : string := "R_between_1-ISMN_2-SMAP".

Definition example_ds : Dataset := {|
  data_vars :=
    ["lat"; "lon"; "n_obs"; example_var; "rmsd_between_1-ISMN_2-SMAP";
     "p_tau_between_1-ISMN_2-SMAP"];
  attrs :=
    {[ "val_dc_pretty_name0" := "In Situ Network";
       "val_dc_pretty_name1" := "SMAP level 3";
       "val_dc_version1" := "SMAP_V5_PM";
       "val_dc_version_pretty_name1" := "v5 PM/ascending" ]} |}.

(** A dataset with other variables and one attribute more. *)
Definition other_ds : Dataset := {|
  data_vars := [example_var; "gpi"];
  attrs := <["val_interval_from" := "1978-11-01"]> (attrs example_ds) |}.

(** A dataset whose only data variable is [n_obs]. *)
Definition n_obs_ds : Dataset := {|
  data_vars := ["n_obs"];
  attrs := {[ "val_dc_pretty_name0" := "GLDAS Noah" ]} |}.

(** A dataset with a variable that cannot be decoded. *)
Definition odd_ds : Dataset := {|
  data_vars := ["n_obs"; "not_a_valid_name"];
  attrs := attrs n_obs_ds |}.

(** A dataset without data variables. *)
Definition empty_ds : Dataset := {|
  data_vars := [];
  attrs := attrs n_obs_ds |}.

(** A dataset without attributes. *)
Definition bare_ds : Dataset := {|
  data_vars := ["n_obs"; example_var];
  attrs := ∅ |}.

(** A dataset with pretty names and a version, but without a pretty name
    for the version. *)
Definition versioned_ds : Dataset := {|
  data_vars := ["n_obs"; example_var];
  attrs :=
    {[ "val_dc_pretty_name0" := "In Situ Network";
       "val_dc_pretty_name1" := "SMAP level 3";
       "val_dc_version1" := "SMAP_V5_PM" ]} |}.

Definition example_match : Re.mstate :=
  default (Re.MState 0 [] ∅) (Re.match_ false pattern (chars example_var)).

Definition example_meta : gmap string val :=
  match _get_meta example_ds example_var with
  | Ok meta => meta
  | Raise _ => ∅
  end.

(** ** More of [ncplot] and of [plot] *)

(** [load(filepath, metric)] up to its call of [_load_data]: the variables
    that [_get_var] finds and the metadata [_get_varmeta] gives for them
    ([None] as for [_get_var]). *)
Definition load_varmeta (ds : Dataset) (metric : string)
    : option (result (list (string * gmap string val))) :=
  variables ← _get_var ds metric;
  Some (_get_varmeta ds (Some variables)).

(** The variables and the warnings of [_get_varmeta] when no variables are
    given. *)
Definition default_variables (ds : Dataset) : list string :=
  fst (remove_indices (data_vars ds) (index_names ++ ["gpi"])).

Definition default_warnings (ds : Dataset) : list string :=
  snd (remove_indices (data_vars ds) (index_names ++ ["gpi"])).

(** An index of the dataset: [lat], [lon] or [gpi]. *)
Definition is_index (v : string) : bool :=
  bool_decide (v ∈ index_names ++ ["gpi"]).

Definition is_not (x : val) (y : val) : bool := negb (bool_decide (y = x)).

(** The title of [plot.boxplot].

    [title] is a list of lines that is never empty: [lines] holds the lines
    but the last, [line] is the last, [title[-1]]. *)
Fixpoint title_lines (max_title_len : nat) (lines : list string)
    (line : string) (names : list string) : list string :=
  match names with
  | [] => lines ++ [line]
  | name :: names' =>
      let to_append := name +:+ ", " in
      if (String.length (line +:+ to_append) <=? max_title_len)%nat
      then title_lines max_title_len lines (line +:+ to_append) names'
      else title_lines max_title_len (lines ++ [line]) to_append names'
  end.

Definition newline : string := String (ascii_of_nat 10) EmptyString.

(** [s[:-2]]. *)
Definition cut2 (s : string) : string :=
  string_of_list_ascii (take (length (chars s) - 2) (chars s)).

Fixpoint starts_with (p s : list ascii) : bool :=
  match p, s with
  | [], _ => true
  | c :: p', ch :: s' => bool_decide (c = ch) && starts_with p' s'
  | _ :: _, [] => false
  end.

(** [s.rsplit(sep, 1)] for a separator that is not empty: the text before
    and after the last [sep] in [s], [None] when there is none. *)
Fixpoint rsplit1 (sep s : list ascii) : option (list ascii * list ascii) :=
  match s with
  | [] => None
  | c :: s' =>
      match rsplit1 sep s' with
      | Some (a, b) => Some (c :: a, b)
      | None =>
          if starts_with sep s then Some ([], drop (length sep) s) else None
      end
  end.

(** [' and '.join(s.rsplit(', ', 1))]. *)
Definition last_comma_to_and (s : string) : string :=
  match rsplit1 (chars ", ") (chars s) with
  | Some (a, b) =>
      string_of_list_ascii a +:+ " and " +:+ string_of_list_ascii b
  | None => s
  end.

(** The first line of the title, for the metric [n_obs] and for the
    others. *)
Definition title_header (metric ref_pretty_name ref_version_pretty_name
    : string) : string :=
  if bool_decide (metric = "n_obs")
  then "Number of spacial and temporal matches between " +:+
       ref_pretty_name +:+ " (" +:+ ref_version_pretty_name +:+ ")"
  else "Comparing " +:+ ref_pretty_name +:+ " (" +:+
       ref_version_pretty_name +:+ ") to ".

(** The title [plot.boxplot] makes when none is given.  [names] are the
    names the loop goes through, [columns] is [len(df.columns)], and
    [boxplot_title_len] is the constant of [globals] of that name, which
    [globals.py] does not define in this revision. *)
Definition boxplot_title (boxplot_title_len columns : nat)
    (metric ref_pretty_name ref_version_pretty_name : string)
    (names : list string) : string :=
  let max_title_len := (boxplot_title_len * columns)%nat in
  let title :=
    title_lines max_title_len []
      (title_header metric ref_pretty_name ref_version_pretty_name) names in
  let title := cut2 (String.concat newline title) in
  last_comma_to_and title.

(** [sep in s]. *)
Fixpoint occurs (sep s : list ascii) : bool :=
  starts_with sep s ||
  match s with
  | [] => false
  | _ :: s' => occurs sep s'
  end.

(** The lines of the title joined, without the last two characters. *)
Definition wrapped (max_title_len : nat) (header : string)
    (names : list string) : string :=
  cut2 (String.concat newline (title_lines max_title_len [] header names)).

(** What the loop of the title appends for a name. *)
Definition piece (name : string) : string := name +:+ ", ".

(** [title[-1]] after the loop went through [names]. *)
Definition current_line (max_title_len : nat) (header : string)
    (names : list string) : string :=
  default EmptyString (last (title_lines max_title_len [] header names)).

(** The line break before a name that does not fit on the current line. *)
Definition break_before (max_title_len : nat) (line name : string) : string :=
  if (String.length (line +:+ piece name) <=? max_title_len)%nat
  then EmptyString else newline.

Arguments str : simpl never.
Arguments _get_pretty_name : simpl never.

(** * Properties *)

Ltac map_lookup :=
  repeat first
    [ rewrite lookup_insert_eq
    | rewrite lookup_insert_ne by discriminate
    | rewrite lookup_empty ].

Ltac role_keys :=
  repeat match goal with
  | |- context [String.append "ds" ?b] =>
      let v := eval vm_compute in (String.append "ds" b) in
      change (String.append "ds" b) with v
  | |- context [String.append "ref" ?b] =>
      let v := eval vm_compute in (String.append "ref" b) in
      change (String.append "ref" b) with v
  end.

(** One step of symbolic execution in the monad [M]. *)
Ltac run :=
  repeat (progress
    (unfold mbind, ST_bind, mret, ST_ret, try_except, meta_new, meta_set,
       meta_get, meta_return, raise, for_;
     simpl; role_keys; map_lookup)).

Ltac role_cases H :=
  apply elem_of_cons in H as [->|H];
  [|apply list_elem_of_singleton in H as ->].

Ltac resolved_lookup :=
  unfold resolved, head_meta; role_keys; map_lookup.

(** ** The matcher *)

Module ReFacts.
Import Re.

Lemma orelse_Some {A} (o1 o2 : option A) x :
  orelse o1 o2 = Some x -> o1 = Some x \/ (o1 = None /\ o2 = Some x).
Proof. destruct o1; simpl; intros; simplify_eq; auto. Qed.

Lemma bt_star ic r1 st k :
  bt ic (RStar r1) st k = star_loop ic r1 k (S (length (rest st))) st.
Proof. reflexivity. Qed.

Lemma bt_plus ic r1 st k :
  bt ic (RPlus r1) st k =
  bt ic r1 st (fun st1 => star_loop ic r1 k (S (length (rest st1))) st1).
Proof. reflexivity. Qed.

Lemma star_loop_sound ic r1 k :
  (forall st k' res, bt ic r1 st k' = Some res ->
     exists st', matches ic r1 st st' /\ k' st' = Some res) ->
  forall fuel st res, star_loop ic r1 k fuel st = Some res ->
    exists st', matches ic (RStar r1) st st' /\ k st' = Some res.
Proof.
  intros IH fuel. induction fuel as [|fuel IHf]; intros st res H; simpl in H.
  - exists st. split; [apply m_star_stop | done].
  - apply orelse_Some in H as [H | [_ H]].
    + apply IH in H as (st1 & Hm & Hk).
      destruct (pos st <? pos st1)%nat eqn:Hlt; [|done].
      apply Nat.ltb_lt in Hlt.
      apply IHf in Hk as (st2 & Hm2 & Hk2).
      exists st2. split; [|done]. by eapply m_star_more.
    + exists st. split; [apply m_star_stop | done].
Qed.

(** Whatever the matcher returns is a match, continued by [k]. *)
Lemma bt_sound ic r : forall st k res,
  bt ic r st k = Some res ->
  exists st', matches ic r st st' /\ k st' = Some res.
Proof.
  induction r as
    [c|kl| | | |r1 IH1 r2 IH2|r1 IH1 r2 IH2|r1 IH1|r1 IH1|r1 IH1|n r1 IH1];
    intros st k res H.
  - simpl in H. destruct (rest st) as [|ch tl] eqn:Hr; [done|].
    destruct (lit_eq ic c ch) eqn:Hc; [|done].
    exists (advance st tl). split; [by eapply m_lit | done].
  - simpl in H. destruct (rest st) as [|ch tl] eqn:Hr; [done|].
    destruct (in_cls kl ch) eqn:Hc; [|done].
    exists (advance st tl). split; [by eapply m_cls | done].
  - simpl in H. destruct (pos st =? 0)%nat eqn:Hp; [|done].
    apply Nat.eqb_eq in Hp. exists st. split; [by apply m_bol | done].
  - simpl in H. destruct (at_end (rest st)) eqn:He; [|done].
    exists st. split; [by apply m_eol | done].
  - exists st. split; [apply m_empty | done].
  - simpl in H. apply IH1 in H as (st1 & Hm1 & H).
    apply IH2 in H as (st2 & Hm2 & H).
    exists st2. split; [by eapply m_seq | done].
  - simpl in H. apply orelse_Some in H as [H | [_ H]].
    + apply IH1 in H as (st1 & Hm & H). exists st1.
      split; [by apply m_alt_l|done].
    + apply IH2 in H as (st1 & Hm & H). exists st1.
      split; [by apply m_alt_r|done].
  - rewrite bt_star in H. eapply star_loop_sound; eauto.
  - rewrite bt_plus in H. apply IH1 in H as (st1 & Hm & H).
    eapply star_loop_sound in H as (st2 & Hm2 & H); eauto.
    exists st2. split; [by eapply m_plus | done].
  - simpl in H. apply orelse_Some in H as [H | [_ H]].
    + apply IH1 in H as (st1 & Hm & H). exists st1.
      split; [by apply m_opt_some|done].
    + exists st. split; [apply m_opt_none | done].
  - simpl in H. apply IH1 in H as (st1 & Hm & H).
    exists (set_cap n st st1). split; [by apply m_group | done].
Qed.

Lemma orelse_is_Some {A} (o1 o2 : option A) :
  is_Some (orelse o1 o2) <-> is_Some o1 \/ is_Some o2.
Proof.
  destruct o1; simpl; split; eauto. intros [[? [=]]|]; done.
Qed.

(** A continuation that accepts more makes the matcher accept more. *)
Lemma star_loop_mono ic r1 :
  (forall st k1 k2,
     (forall s, is_Some (k1 s) -> is_Some (k2 s)) ->
     is_Some (bt ic r1 st k1) -> is_Some (bt ic r1 st k2)) ->
  forall fuel st k1 k2,
    (forall s, is_Some (k1 s) -> is_Some (k2 s)) ->
    is_Some (star_loop ic r1 k1 fuel st) ->
    is_Some (star_loop ic r1 k2 fuel st).
Proof.
  intros IH fuel. induction fuel as [|fuel IHf]; intros st k1 k2 Hk; simpl.
  - apply Hk.
  - rewrite !orelse_is_Some. intros [H|H]; [left|right; by apply Hk].
    eapply IH; [|exact H]. intros s. simpl.
    destruct (pos st <? pos s)%nat; [by apply IHf | done].
Qed.

Lemma bt_mono ic r : forall st k1 k2,
  (forall s, is_Some (k1 s) -> is_Some (k2 s)) ->
  is_Some (bt ic r st k1) -> is_Some (bt ic r st k2).
Proof.
  induction r as
    [c|kl| | | |r1 IH1 r2 IH2|r1 IH1 r2 IH2|r1 IH1|r1 IH1|r1 IH1|n r1 IH1];
    intros st k1 k2 Hk.
  - simpl. destruct (rest st) as [|ch tl]; [done|].
    destruct (lit_eq ic c ch); [apply Hk|done].
  - simpl. destruct (rest st) as [|ch tl]; [done|].
    destruct (in_cls kl ch); [apply Hk|done].
  - simpl. destruct (pos st =? 0)%nat; [apply Hk|done].
  - simpl. destruct (at_end (rest st)); [apply Hk|done].
  - apply Hk.
  - simpl. apply IH1. intros s. by apply IH2.
  - simpl. rewrite !orelse_is_Some.
    intros [H|H]; [left; by eapply IH1|right; by eapply IH2].
  - rewrite !bt_star. by apply (star_loop_mono ic r1 IH1).
  - rewrite !bt_plus. apply IH1. intros s. by apply (star_loop_mono ic r1 IH1).
  - simpl. rewrite !orelse_is_Some.
    intros [H|H]; [left; by eapply IH1|right; by apply Hk].
  - simpl. apply IH1. intros s. apply Hk.
Qed.

(** More fuel never loses a match. *)
Lemma star_loop_fuel ic r1 k fuel : forall fuel' st,
  (fuel <= fuel')%nat ->
  is_Some (star_loop ic r1 k fuel st) ->
  is_Some (star_loop ic r1 k fuel' st).
Proof.
  induction fuel as [|fuel IH]; intros fuel' st Hle H; simpl in H.
  - destruct fuel'; simpl; [done|]. apply orelse_is_Some. by right.
  - destruct fuel' as [|fuel']; [lia|]. simpl.
    apply orelse_is_Some in H as [H|H]; apply orelse_is_Some; [left|by right].
    eapply bt_mono; [|exact H]. intros s. simpl.
    destruct (pos st <? pos s)%nat; [|done]. apply IH. lia.
Qed.

(** What a match consumes is a prefix of the text, and the position moves
    by its length. *)
Lemma matches_consumes ic r st st' :
  matches ic r st st' ->
  exists w, rest st = w ++ rest st' /\ pos st' = (pos st + length w)%nat.
Proof.
  induction 1 as
    [c ch tl st Hr _|kl ch tl st Hr _|st _|st _|st
    |r1 r2 st st1 st2 _ IH1 _ IH2|r1 r2 st st1 _ IH|r1 r2 st st1 _ IH
    |r st|r st st1 st2 _ IH1 _ _ IH2|r st st1 st2 _ IH1 _ IH2
    |r st st1 _ IH|r st|n r st st1 _ IH];
    try (exists []; simpl; split; [done | lia]);
    try done.
  - exists [ch]. simpl. split; [done | lia].
  - exists [ch]. simpl. split; [done | lia].
  - destruct IH1 as (w1 & E1 & P1), IH2 as (w2 & E2 & P2).
    exists (w1 ++ w2). rewrite E1, E2, P2, P1, length_app, <-app_assoc.
    split; [done | lia].
  - destruct IH1 as (w1 & E1 & P1), IH2 as (w2 & E2 & P2).
    exists (w1 ++ w2). rewrite E1, E2, P2, P1, length_app, <-app_assoc.
    split; [done | lia].
  - destruct IH1 as (w1 & E1 & P1), IH2 as (w2 & E2 & P2).
    exists (w1 ++ w2). rewrite E1, E2, P2, P1, length_app, <-app_assoc.
    split; [done | lia].
Qed.

(** Every match that the continuation accepts is found: the matcher
    returns whenever there is some match. *)
Lemma bt_complete ic r st st' :
  matches ic r st st' ->
  forall k, is_Some (k st') -> is_Some (bt ic r st k).
Proof.
  induction 1 as
    [c ch tl st Hr Hc|kl ch tl st Hr Hc|st Hp|st He|st
    |r1 r2 st st1 st2 _ IH1 _ IH2|r1 r2 st st1 _ IH|r1 r2 st st1 _ IH
    |r st|r st st1 st2 H1 IH1 Hlt _ IH2|r st st1 st2 _ IH1 _ IH2
    |r st st1 _ IH|r st|n r st st1 _ IH];
    intros k Hk.
  - simpl. by rewrite Hr, Hc.
  - simpl. by rewrite Hr, Hc.
  - simpl. by rewrite Hp.
  - simpl. by rewrite He.
  - done.
  - simpl. apply IH1. by apply IH2.
  - simpl. apply orelse_is_Some. left. by apply IH.
  - simpl. apply orelse_is_Some. right. by apply IH.
  - rewrite bt_star. simpl. apply orelse_is_Some. by right.
  - rewrite bt_star. simpl. apply orelse_is_Some. left. apply IH1.
    apply Nat.ltb_lt in Hlt as Hlt'. rewrite Hlt'.
    apply matches_consumes in H1 as (w & Hw & Hpos).
    specialize (IH2 k Hk). rewrite bt_star in IH2.
    apply (star_loop_fuel ic r k (S (length (rest st1)))); [|done].
    rewrite Hw, length_app. lia.
  - rewrite bt_plus. apply IH1. rewrite <- bt_star. by apply IH2.
  - simpl. apply orelse_is_Some. left. by apply IH.
  - simpl. apply orelse_is_Some. by right.
  - simpl. apply IH. done.
Qed.

(** [pattern.match] succeeds exactly when the text has a match. *)
Lemma match_iff ic r s :
  is_Some (match_ ic r s) <-> exists st', matches ic r (MState 0 s ∅) st'.
Proof.
  unfold match_. split.
  - intros [m H]. apply bt_sound in H as (st' & H & _). eauto.
  - intros [st' H]. by eapply bt_complete.
Qed.

Lemma matches_lit ic c st st' :
  matches ic (RLit c) st st' ->
  exists ch, lit_eq ic c ch = true /\ rest st = ch :: rest st' /\
             pos st' = S (pos st) /\ caps st' = caps st.
Proof. inversion 1; subst. eauto. Qed.

Lemma matches_star_cls ic kl st st' :
  matches ic (RStar (RCls kl)) st st' ->
  exists w, forallb (in_cls kl) w = true /\ rest st = w ++ rest st' /\
            pos st' = (pos st + length w)%nat /\ caps st' = caps st.
Proof.
  remember (RStar (RCls kl)) as r eqn:Er. intros H.
  induction H as
    [| | | | | | | |r st|r st st1 st2 H1 _ Hlt _ IH2| | | |]; try discriminate.
  - exists []. simpl. split_and!; try done; lia.
  - injection Er as ->. specialize (IH2 eq_refl) as (w & Hw & E & P & C).
    inversion H1 as [|? ch tl ? Hr Hc| | | | | | | | | | | |]; subst.
    exists (ch :: w). simpl in *. rewrite Hc, Hw, Hr, E, P, C.
    split_and!; try done; lia.
Qed.

Lemma matches_plus_cls ic kl st st' :
  matches ic (RPlus (RCls kl)) st st' ->
  exists w, w <> [] /\ forallb (in_cls kl) w = true /\
            rest st = w ++ rest st' /\
            pos st' = (pos st + length w)%nat /\ caps st' = caps st.
Proof.
  inversion 1 as [| | | | | | | | | |? ? st1 ? H1 H2| | |]; subst.
  apply matches_star_cls in H2 as (w & Hw & E & P & C).
  inversion H1 as [|? ch tl ? Hr Hc| | | | | | | | | | | |]; subst.
  exists (ch :: w). simpl in *. rewrite Hc, Hw, Hr, E, P, C.
  split_and!; try done; lia.
Qed.

(** A group around [\d+], [\D+] or [\S+] captures the run it consumed. *)
Lemma matches_group_plus_cls ic n kl st st' :
  matches ic (RGroup n (RPlus (RCls kl))) st st' ->
  exists w, w <> [] /\ forallb (in_cls kl) w = true /\
            rest st = w ++ rest st' /\
            pos st' = (pos st + length w)%nat /\
            caps st' = <[n := w]> (caps st).
Proof.
  inversion 1 as [| | | | | | | | | | | | |? ? ? st1 H1]; subst.
  apply matches_plus_cls in H1 as (w & Hn & Hw & E & P & C).
  exists w. simpl. rewrite E, P, C.
  replace (pos st + length w - pos st)%nat with (length w) by lia.
  rewrite take_app_length. done.
Qed.

Lemma lit_eq_exact c ch : lit_eq false c ch = true -> ch = c.
Proof. unfold lit_eq. intros H. by apply bool_decide_eq_true in H. Qed.

End ReFacts.

(** ** The pattern of [_get_meta] *)

Lemma pattern_compiled : Re.compile pattern_source = Some pattern.
Proof. vm_compute. reflexivity. Qed.

Lemma pattern_n_obs : Re.match_ false pattern (chars "n_obs") = None.
Proof. vm_compute. reflexivity. Qed.

Section pattern_facts.
Import Re ReFacts.

Ltac inv_seq :=
  repeat match goal with
  | H : matches _ (RSeq _ _) _ _ |- _ => inversion H; subst; clear H
  end.

Ltac inv_atoms :=
  repeat match goal with
  | H : matches _ (RLit _) _ _ |- _ =>
      apply matches_lit in H as (? & ?%lit_eq_exact & ? & ? & ?); subst
  | H : matches _ (RGroup _ (RPlus (RCls _))) _ _ |- _ =>
      apply matches_group_plus_cls in H as (? & ? & ? & ? & ? & ?)
  end.

(** A successful [pattern.match] splits the text into the five groups. *)
Lemma pattern_match_inv l m :
  match_ false pattern l = Some m ->
  exists g1 g2 g3 g4 g5,
    between_shape l g1 g2 g3 g4 g5 (rest m) /\
    caps m = <[5%nat := g5]> (<[4%nat := g4]> (<[3%nat := g3]>
               (<[2%nat := g2]> (<[1%nat := g1]> ∅)))).
Proof.
  unfold match_. intros H.
  apply bt_sound in H as (st' & H & [= ->]).
  unfold pattern in H. inv_seq. inv_atoms. simpl in *.
  eexists _, _, _, _, _. split; cycle 1.
  { repeat match goal with
    | H : caps ?s = _ |- context [caps ?s] => rewrite H
    end. reflexivity. }
  unfold between_shape. cbn [chars list_ascii_of_string app].
  split_and!; try assumption; congruence.
Qed.

Lemma reads_seq ic r1 r2 st tl1 tl2 :
  reads_to ic r1 st tl1 ->
  (forall st1, rest st1 = tl1 -> reads_to ic r2 st1 tl2) ->
  reads_to ic (RSeq r1 r2) st tl2.
Proof.
  intros (st1 & H1 & E1) H2. destruct (H2 st1 E1) as (st2 & H2' & E2).
  exists st2. split; [by eapply m_seq | done].
Qed.

Lemma reads_lit c tl st :
  rest st = c :: tl -> reads_to false (RLit c) st tl.
Proof.
  intros E. exists (advance st tl). split; [|done].
  eapply m_lit; [done|]. unfold lit_eq. by apply bool_decide_eq_true_2.
Qed.

Lemma reads_star_cls ic kl w : forall st tl,
  forallb (in_cls kl) w = true -> rest st = w ++ tl ->
  reads_to ic (RStar (RCls kl)) st tl.
Proof.
  induction w as [|c w IH]; intros st tl Hw E; simpl in *.
  - exists st. split; [apply m_star_stop | done].
  - apply andb_true_iff in Hw as [Hc Hw].
    destruct (IH (advance st (w ++ tl)) tl Hw eq_refl) as (st2 & H2 & E2).
    exists st2. split; [|done].
    eapply m_star_more; [by eapply m_cls | simpl; lia | done].
Qed.

Lemma reads_group_run ic n kl w tl st :
  w <> [] -> forallb (in_cls kl) w = true -> rest st = w ++ tl ->
  reads_to ic (RGroup n (RPlus (RCls kl))) st tl.
Proof.
  intros Hn Hw E. destruct w as [|c w]; [done|]. simpl in *.
  apply andb_true_iff in Hw as [Hc Hw].
  destruct (reads_star_cls ic kl w (advance st (w ++ tl)) tl Hw eq_refl)
    as (st2 & H2 & E2).
  exists (set_cap n st st2). split; [|done].
  apply m_group. eapply m_plus; [by eapply m_cls | done].
Qed.

(** A text of the shape is matched. *)
Lemma shape_match l g1 g2 g3 g4 g5 tl :
  between_shape l g1 g2 g3 g4 g5 tl -> is_Some (match_ false pattern l).
Proof.
  intros (-> & [? ?] & [? ?] & [? ?] & [? ?] & [? ?]).
  apply match_iff.
  cut (reads_to false pattern
         (MState 0 (g1 ++ chars "_between_" ++ g2 ++ chars "-" ++ g3 ++
                    chars "_" ++ g4 ++ chars "-" ++ g5 ++ tl) ∅) tl).
  { intros (st' & H' & _). eauto. }
  unfold pattern. cbn [chars list_ascii_of_string app].
  repeat (eapply reads_seq;
    [first [ apply reads_lit; first [eassumption | reflexivity]
           | eapply reads_group_run; cycle 2;
             [first [eassumption | reflexivity]|done..] ]
    | intros ? ?]).
  eapply reads_group_run; cycle 2; [eassumption|done..].
Qed.

(** [pattern.match] succeeds exactly on the texts of the shape. *)
Lemma pattern_match_iff l :
  is_Some (match_ false pattern l) <->
  exists g1 g2 g3 g4 g5 tl, between_shape l g1 g2 g3 g4 g5 tl.
Proof.
  split.
  - intros [m Hm]. apply pattern_match_inv in Hm
      as (g1 & g2 & g3 & g4 & g5 & Hs & _). eauto 10.
  - intros (g1 & g2 & g3 & g4 & g5 & tl & Hs). by eapply shape_match.
Qed.

End pattern_facts.

(** ** The keys of [ds.attrs] *)

Section keys.

(** [str] of a positive number starts with a digit. *)
Lemma pretty_N_go_head (x : N) : forall s,
  (0 < x)%N ->
  exists c t, pretty_N_go x s = String c t /\ Char.is_digit c = true.
Proof.
  induction (N.lt_wf_0 x) as [x _ IH]. intros s Hx.
  rewrite pretty_N_go_step by done.
  destruct (decide (x `div` 10 = 0)%N) as [E|E].
  - rewrite E, pretty_N_go_0. eexists _, _. split; [done|].
    assert (x `mod` 10 < 10)%N as Hm by (apply N.mod_lt; lia).
    unfold pretty_N_char. by repeat case_match.
  - apply IH; [apply N.div_lt; lia | by apply N.neq_0_lt_0].
Qed.

Lemma str_head (z : Z) :
  exists c t, str z = String c t /\ (Char.is_digit c = true \/ c = "-"%char).
Proof.
  unfold str, pretty, pretty_Z. destruct z as [|p|p].
  - eexists _, _. split; [done | by left].
  - unfold pretty, pretty_positive, pretty, pretty_N. simpl.
    destruct (pretty_N_go_head (N.pos p) EmptyString)
      as (c & t & -> & Hc); [lia|].
    eauto.
  - eexists _, _. split; [done | by right].
Qed.

(** [str] and the decimal reading are inverse to each other. *)
Lemma chars_pretty_N_go (x : N) : forall s,
  chars (pretty_N_go x s) = chars (pretty_N_go x EmptyString) ++ chars s.
Proof.
  induction (N.lt_wf_0 x) as [x _ IH]. intros s.
  destruct (decide (x = 0)%N) as [->|Hx].
  - by rewrite !pretty_N_go_0.
  - rewrite (pretty_N_go_step x s), (pretty_N_go_step x EmptyString) by lia.
    rewrite (IH (x `div` 10)%N) by (apply N.div_lt; lia).
    rewrite (IH (x `div` 10)%N ltac:(apply N.div_lt; lia)
               (String _ EmptyString)).
    by rewrite <- app_assoc.
Qed.

Lemma digit_value_pretty_N_char (d : N) :
  (d < 10)%N ->
  digit_value (pretty_N_char d) = Z.of_N d /\
  Char.is_digit (pretty_N_char d) = true.
Proof.
  intros Hd.
  assert (d = 0 \/ d = 1 \/ d = 2 \/ d = 3 \/ d = 4 \/ d = 5 \/ d = 6 \/
          d = 7 \/ d = 8 \/ d = 9)%N as H by lia.
  repeat destruct H as [->|H]; try subst d; by vm_compute.
Qed.

Lemma digits_value_snoc l c :
  digits_value (l ++ [c]) = (10 * digits_value l + digit_value c)%Z.
Proof. unfold digits_value. by rewrite fold_left_app. Qed.

Lemma decimal_pretty_N_go (x : N) :
  digits_value (chars (pretty_N_go x EmptyString)) = Z.of_N x /\
  forallb Char.is_digit (chars (pretty_N_go x EmptyString)) = true.
Proof.
  induction (N.lt_wf_0 x) as [x _ IH].
  destruct (decide (x = 0)%N) as [->|Hx].
  - by rewrite pretty_N_go_0.
  - rewrite pretty_N_go_step, chars_pretty_N_go by lia.
    destruct (IH (x `div` 10)%N) as [IHv IHd]; [apply N.div_lt; lia|].
    destruct (digit_value_pretty_N_char (x `mod` 10)) as [Hv Hd];
      [apply N.mod_lt; lia|].
    change (chars (String (pretty_N_char (x `mod` 10)) EmptyString))
      with [pretty_N_char (x `mod` 10)].
    rewrite digits_value_snoc, forallb_app, IHv, IHd, Hv. simpl. rewrite Hd.
    split; [|done]. rewrite (N.div_mod' x 10) at 3. lia.
Qed.

Lemma decimal_str (z : Z) :
  (0 <= z)%Z -> decimal (str z) = z /\ is_decimal (str z).
Proof.
  intros Hz. unfold decimal, is_decimal, str, pretty, pretty_Z.
  destruct z as [|p|p]; [by vm_compute| |lia].
  unfold pretty, pretty_positive, pretty, pretty_N. simpl.
  destruct (decimal_pretty_N_go (N.pos p)) as [Hv Hd].
  split_and!; [done| |done].
  destruct (pretty_N_go_head (N.pos p) EmptyString)
    as (c & t & -> & _); [lia|done].
Qed.

Lemma version_pretty_key_inj k k' :
  version_pretty_key k = version_pretty_key k' -> k = k'.
Proof.
  unfold version_pretty_key. intros H.
  apply (inj (String.append _)) in H. apply (inj pretty) in H. lia.
Qed.

Lemma version_pretty_key_pretty_key k k' :
  version_pretty_key k <> pretty_key k'.
Proof. unfold version_pretty_key, pretty_key. simpl. discriminate. Qed.

Lemma version_pretty_key_version_key k k' :
  version_pretty_key k <> version_key k'.
Proof.
  unfold version_pretty_key, version_key. intros H.
  change ("val_dc_version_pretty_name" +:+ str (k - 1))
    with ("val_dc_version" +:+ ("_pretty_name" +:+ str (k - 1))) in H.
  apply (inj (String.append _)) in H.
  destruct (str_head (k' - 1)) as (c & t & E & Hc). rewrite E in H.
  simpl in H. injection H as <- _. by destruct Hc.
Qed.

(** A key [val_dc_version_pretty_nameN] is subscripted only when the key
    [val_dc_versionN] is there. *)
Lemma version_pretty_key_read ds k k' :
  version_pretty_key k ∈ keys_read ds k' ->
  k' = k /\ is_Some (attrs ds !! version_key k).
Proof.
  unfold keys_read. rewrite elem_of_cons.
  intros [H|H].
  - by apply version_pretty_key_pretty_key in H.
  - destruct (attrs ds !! pretty_key k'); [|by apply elem_of_nil in H].
    apply elem_of_cons in H as [H|H].
    + by apply version_pretty_key_version_key in H.
    + destruct (attrs ds !! version_key k') as [v|] eqn:E.
      * apply list_elem_of_singleton, version_pretty_key_inj in H.
        subst. eauto.
      * by apply elem_of_nil in H.
Qed.

End keys.

(** ** Running [_get_meta] *)

Section run.

(** One call of [_get_pretty_name]: the three names when the attributes
    have them, [AttributeError] as soon as a table of [globals] is asked
    for, and the keys subscripted until then. *)
Lemma _get_pretty_name_run ds n k s :
  _get_pretty_name ds (VStr n) (VInt k) s =
  ((if named ds k
    then Ok (VStr (pretty_name_of ds k), VStr (version_of ds k),
             VStr (version_pretty_name_of ds k))
    else Raise AttributeError),
   Locals (meta s) (reads s ++ keys_read ds k)).
Proof.
  unfold _get_pretty_name, named, pretty_name_of, version_of,
    version_pretty_name_of, keys_read, pretty_key, version_key,
    version_pretty_key.
  unfold mbind, ST_bind, try_except, attrs_getitem, sub1, table_getitem,
    _dataset_pretty_names, _dataset_version_pretty_names, mret, ST_ret, raise.
  destruct (attrs ds !! ("val_dc_pretty_name" +:+ str (k - 1))) as [p|];
    [|simpl; reflexivity].
  destruct (attrs ds !! ("val_dc_version" +:+ str (k - 1))) as [v|];
    [destruct (attrs ds !! ("val_dc_version_pretty_name" +:+ str (k - 1)))
       as [q|]|];
    simpl; rewrite <- ?app_assoc; reflexivity.
Qed.

Lemma digit_not_space c : Char.is_digit c = true -> Char.is_space c = false.
Proof. destruct c as [[] [] [] [] [] [] [] []]; vm_compute; congruence. Qed.

Lemma digit_not_sign c :
  Char.is_digit c = true -> c <> "+"%char /\ c <> "-"%char.
Proof. intros H. split; intros ->; discriminate. Qed.

Lemma lstrip_digits l :
  forallb Char.is_digit l = true -> lstrip l = l.
Proof.
  destruct l as [|c l]; simpl; [done|].
  intros [Hc _]%andb_true_iff. by rewrite digit_not_space.
Qed.

Lemma forallb_rev {A} (f : A -> bool) l :
  forallb f (rev l) = forallb f l.
Proof.
  induction l as [|x l IH]; simpl; [done|].
  rewrite forallb_app, IH. simpl. by rewrite andb_true_r, andb_comm.
Qed.

Lemma strip_digits l : forallb Char.is_digit l = true -> strip l = l.
Proof.
  intros H. unfold strip. rewrite (lstrip_digits l) by done.
  rewrite lstrip_digits by (by rewrite forallb_rev). apply rev_involutive.
Qed.

Lemma scan_digits_all l : forall acc b,
  forallb Char.is_digit l = true ->
  l <> [] \/ b = true ->
  scan_digits acc b l =
    Some (fold_left (fun acc c => 10 * acc + digit_value c)%Z l acc).
Proof.
  induction l as [|c l IH]; intros acc b Hl Hb; simpl.
  - by destruct Hb as [?| ->].
  - simpl in Hl. apply andb_true_iff in Hl as [Hc Hl]. rewrite Hc.
    apply IH; [done | by right].
Qed.

(** On a string of digits, [int] is the decimal reading. *)
Lemma int_digits (g : list ascii) (s : locals) :
  g <> [] -> forallb Char.is_digit g = true ->
  int (VStr (string_of_list_ascii g)) s = (Ok (VInt (digits_value g)), s).
Proof.
  intros Hn Hd. unfold int, int_literal, chars.
  rewrite list_ascii_of_string_of_list_ascii, strip_digits by done.
  destruct g as [|c g]; [done|].
  assert (Char.is_digit c = true) as Hc
    by (simpl in Hd; by apply andb_true_iff in Hd as [? _]).
  destruct (digit_not_sign c Hc) as [Hp Hm].
  rewrite !bool_decide_false by done.
  by rewrite scan_digits_all by (done || by left).
Qed.

(** [int] undoes [str]. *)
Lemma int_str (z : Z) (s : locals) :
  (0 <= z)%Z -> int (VStr (str z)) s = (Ok (VInt z), s).
Proof.
  intros Hz. destruct (decimal_str z Hz) as [Hv [Hn Hd]].
  rewrite <- (string_of_list_ascii_of_string (str z)).
  rewrite int_digits by done. unfold decimal, chars in Hv. by rewrite Hv.
Qed.

Lemma _get_meta_body_between ds var m g1 g2 g3 g4 g5 :
  var ∈ data_vars ds ->
  Re.match_ false pattern (chars var) = Some m ->
  Re.caps m = <[5%nat := g5]> (<[4%nat := g4]> (<[3%nat := g3]>
               (<[2%nat := g2]> (<[1%nat := g1]> ∅)))) ->
  g2 <> [] -> forallb Char.is_digit g2 = true ->
  g4 <> [] -> forallb Char.is_digit g4 = true ->
  exists final,
    _get_meta_body ds var start =
    (outcome ds (string_of_list_ascii g1) (digits_value g2)
       (string_of_list_ascii g3) (digits_value g4)
       (string_of_list_ascii g5),
     Locals final (resolved_reads ds (digits_value g2) (digits_value g4))).
Proof.
  intros Hin Hm Hc Hn2 Hd2 Hn4 Hd4.
  unfold _get_meta_body. rewrite bool_decide_true by done. simpl negb. cbv iota.
  rewrite Hm.
  unfold match_group, Re.group. rewrite Hc. map_lookup. run.
  rewrite (int_digits g2) by done. run.
  rewrite (int_digits g4) by done. run.
  rewrite _get_pretty_name_run. unfold outcome, resolved_reads.
  destruct (named ds (digits_value g4)) eqn:E4; run;
    [|eexists; by rewrite app_nil_r].
  rewrite _get_pretty_name_run.
  destruct (named ds (digits_value g2)) eqn:E2; run; eexists; reflexivity.
Qed.

Lemma _get_meta_body_n_obs ds :
  "n_obs" ∈ data_vars ds ->
  exists final,
    _get_meta_body ds "n_obs" start =
    (outcome ds "n_obs" 1 "GLDAS" 1 "GLDAS",
     Locals final (resolved_reads ds 1 1)).
Proof.
  intros Hin.
  unfold _get_meta_body. rewrite bool_decide_true by done. simpl negb. cbv iota.
  rewrite pattern_n_obs. unfold match_group. run.
  rewrite _get_pretty_name_run. unfold outcome, resolved_reads.
  destruct (named ds 1) eqn:E; run; [|eexists; by rewrite app_nil_r].
  rewrite _get_pretty_name_run, E. run. eexists; reflexivity.
Qed.

Lemma _get_meta_body_no_match ds var :
  var ∈ data_vars ds -> var <> "n_obs" ->
  Re.match_ false pattern (chars var) = None ->
  _get_meta_body ds var start =
  (Raise (Exception (no_match var)), start).
Proof.
  intros Hin Hne Hm.
  unfold _get_meta_body. rewrite bool_decide_true by done. simpl negb. cbv iota.
  rewrite Hm. unfold match_group.
  rewrite (bool_decide_false (var = "n_obs")) by done. run. reflexivity.
Qed.

Lemma _get_meta_body_absent ds var :
  var ∉ data_vars ds ->
  _get_meta_body ds var start =
  (Raise (Exception (not_contained var)), start).
Proof.
  intros Hin. unfold _get_meta_body. rewrite bool_decide_false by done.
  reflexivity.
Qed.

Lemma decodable_decodes var :
  decodable var -> exists metric ref_no ref ds_no dsn,
    decodes var metric ref_no ref ds_no dsn.
Proof.
  intros [->|[m Hm]].
  - eexists _, _, _, _, _. by apply decodes_n_obs.
  - destruct (pattern_match_inv _ _ Hm)
      as (g1 & g2 & g3 & g4 & g5 & (_ & _ & H2 & _ & H4 & _) & Hc).
    eexists _, _, _, _, _. by eapply decodes_between.
Qed.

(** The names [_get_meta] can decode are [n_obs] and the names that begin
    with text of the shape of the pattern. *)
Lemma decodable_shape var :
  decodable var <->
  var = "n_obs" \/
  exists g1 g2 g3 g4 g5 tl, between_shape (chars var) g1 g2 g3 g4 g5 tl.
Proof. unfold decodable. by rewrite pattern_match_iff. Qed.

(** The whole of [_get_meta] on a name it can decode. *)
Lemma _get_meta_body_decodes ds var metric ref_no ref ds_no dsn :
  var ∈ data_vars ds ->
  decodes var metric ref_no ref ds_no dsn ->
  exists final,
    _get_meta_body ds var start =
    (outcome ds metric ref_no ref ds_no dsn,
     Locals final (resolved_reads ds ref_no ds_no)).
Proof.
  intros Hin [m g1 g2 g3 g4 g5 Hm Hc [??] [??]| ->].
  - by eapply _get_meta_body_between.
  - by apply _get_meta_body_n_obs.
Qed.

(** [_get_meta] on a decodable name of the dataset. *)
Lemma _get_meta_decodes ds var metric ref_no ref ds_no dsn :
  var ∈ data_vars ds ->
  decodes var metric ref_no ref ds_no dsn ->
  _get_meta ds var = outcome ds metric ref_no ref ds_no dsn /\
  _get_meta_reads ds var = resolved_reads ds ref_no ds_no.
Proof.
  intros Hin Hd. unfold _get_meta, _get_meta_reads.
  destruct (_get_meta_body_decodes _ _ _ _ _ _ _ Hin Hd) as [final ->].
  done.
Qed.

Lemma outcome_Ok ds metric ref_no ref ds_no dsn meta :
  outcome ds metric ref_no ref ds_no dsn = Ok meta <->
  named ds ds_no = true /\ named ds ref_no = true /\
  meta = resolved ds metric ref_no ref ds_no dsn.
Proof.
  unfold outcome. destruct (named ds ds_no), (named ds ref_no); simpl;
    split; try done; try (by intros (? & ? & ?)).
  - by intros [= <-].
  - by intros (_ & _ & ->).
Qed.

Lemma outcome_Raise ds metric ref_no ref ds_no dsn e :
  outcome ds metric ref_no ref ds_no dsn = Raise e <->
  (named ds ds_no = false \/ named ds ref_no = false) /\ e = AttributeError.
Proof.
  unfold outcome. destruct (named ds ds_no), (named ds ref_no); simpl;
    split; try done; try (by intros [[?|?] ?]);
    try (intros [= <-]; split; [by (left + right)|done]);
    by intros [_ ->].
Qed.

(** A name that does not decode. *)
Lemma not_decodable var :
  ~ decodable var ->
  var <> "n_obs" /\ Re.match_ false pattern (chars var) = None.
Proof.
  intros Hd. split; [intros ->; apply Hd; by left|].
  destruct (Re.match_ false pattern (chars var)) eqn:E; [|done].
  destruct Hd. right. rewrite E. eauto.
Qed.

(** Every way in which [_get_meta] returns. *)
Lemma _get_meta_Ok_inv ds var meta :
  _get_meta ds var = Ok meta ->
  var ∈ data_vars ds /\
  exists metric ref_no ref ds_no dsn,
    decodes var metric ref_no ref ds_no dsn /\
    (named ds ds_no = true /\ named ds ref_no = true) /\
    meta = resolved ds metric ref_no ref ds_no dsn.
Proof.
  intros H.
  destruct (decide (var ∈ data_vars ds)) as [Hin|Hin]; cycle 1.
  { unfold _get_meta in H. by rewrite _get_meta_body_absent in H. }
  split; [done|].
  destruct (decide (decodable var)) as [Hd|Hd].
  - apply decodable_decodes in Hd as (a & b & c & d & e & Hd).
    destruct (_get_meta_decodes _ _ _ _ _ _ _ Hin Hd) as [E _].
    rewrite E in H. apply outcome_Ok in H as (? & ? & ->). eauto 10.
  - apply not_decodable in Hd as [Hne Hm]. unfold _get_meta in H.
    by rewrite _get_meta_body_no_match in H.
Qed.

End run.

(** ** The claims about [_get_meta] *)

Section resolve.

Lemma named_pretty_absent ds k :
  attrs ds !! pretty_key k = None -> named ds k = false.
Proof. unfold named. by intros ->. Qed.

Lemma named_version_pretty_absent ds k v :
  attrs ds !! version_key k = Some v ->
  attrs ds !! version_pretty_key k = None ->
  named ds k = false.
Proof.
  unfold named. intros -> ->. destruct (attrs ds !! pretty_key k); [|done].
  apply bool_decide_eq_false. by intros [? ?].
Qed.

Lemma outcome_not_named ds metric ref_no ref ds_no dsn k :
  k ∈ [ref_no; ds_no] -> named ds k = false ->
  outcome ds metric ref_no ref ds_no dsn = Raise AttributeError.
Proof.
  intros Hk E. apply outcome_Raise. split; [|done].
  apply elem_of_cons in Hk as [->|Hk]; [by right|].
  apply list_elem_of_singleton in Hk as ->. by left.
Qed.

(** C1: the pretty name does not fall back to the table of [globals] or
    to the short name.  For a decodable name of the dataset, when the key
    ["val_dc_pretty_name" + str(k-1)] is absent for the number [k] of one
    of the two roles, [_get_meta] raises [AttributeError]: [globals] has
    no [_dataset_pretty_names], and [except KeyError] does not catch
    that. *)
Theorem C1_pretty_name_fallback ds var metric ref_no ref ds_no dsn k :
  var ∈ data_vars ds ->
  decodes var metric ref_no ref ds_no dsn ->
  k ∈ [ref_no; ds_no] ->
  attrs ds !! ("val_dc_pretty_name" +:+ str (k - 1)) = None ->
  _get_meta ds var = Raise AttributeError.
Proof.
  intros Hin Hd Hk Hp.
  destruct (_get_meta_decodes _ _ _ _ _ _ _ Hin Hd) as [-> _].
  eapply outcome_not_named; [done|]. by apply named_pretty_absent.
Qed.

(** C2: a role's version is not set to ["unknown"] when the pretty name
    of the role [ds], which comes first, is not among the attributes:
    [_get_meta] then raises [AttributeError], and the only key it has
    subscripted is ["val_dc_pretty_name" + str(ds_no-1)], so that no
    version was looked up at all. *)
Theorem C2_version_not_reached ds var metric ref_no ref ds_no dsn :
  var ∈ data_vars ds ->
  decodes var metric ref_no ref ds_no dsn ->
  attrs ds !! ("val_dc_pretty_name" +:+ str (ds_no - 1)) = None ->
  _get_meta ds var = Raise AttributeError /\
  _get_meta_reads ds var = ["val_dc_pretty_name" +:+ str (ds_no - 1)].
Proof.
  intros Hin Hd Hp.
  destruct (_get_meta_decodes _ _ _ _ _ _ _ Hin Hd) as [-> ->].
  split.
  - eapply (outcome_not_named _ _ _ _ _ _ ds_no);
      [set_solver | by apply named_pretty_absent].
  - unfold resolved_reads. rewrite named_pretty_absent by done.
    unfold keys_read, pretty_key. fold (pretty_key ds_no).
    unfold pretty_key in Hp |- *. by rewrite Hp.
Qed.

(** C3: the version pretty name does not fall back to the table of
    [globals] or to the version.  For a decodable name of the dataset,
    when for the number [k] of one of the two roles the key
    ["val_dc_version" + str(k-1)] is there and the key
    ["val_dc_version_pretty_name" + str(k-1)] is not, [_get_meta] raises
    [AttributeError]: [globals] has no [_dataset_version_pretty_names]. *)
Theorem C3_version_pretty_name_fallback ds var metric ref_no ref ds_no dsn
    k v :
  var ∈ data_vars ds ->
  decodes var metric ref_no ref ds_no dsn ->
  k ∈ [ref_no; ds_no] ->
  attrs ds !! ("val_dc_version" +:+ str (k - 1)) = Some v ->
  attrs ds !! ("val_dc_version_pretty_name" +:+ str (k - 1)) = None ->
  _get_meta ds var = Raise AttributeError.
Proof.
  intros Hin Hd Hk Hv Hp.
  destruct (_get_meta_decodes _ _ _ _ _ _ _ Hin Hd) as [-> _].
  eapply outcome_not_named; [done|].
  by eapply named_version_pretty_absent.
Qed.

Lemma chars_of_list (g : list ascii) : chars (string_of_list_ascii g) = g.
Proof. apply list_ascii_of_string_of_list_ascii. Qed.

Lemma _get_meta_no_match ds var :
  var ∈ data_vars ds -> var <> "n_obs" ->
  Re.match_ false pattern (chars var) = None ->
  _get_meta ds var = Raise (Exception (no_match var)).
Proof.
  intros Hin Hne Hm. unfold _get_meta.
  by rewrite _get_meta_body_no_match.
Qed.

Lemma named_no_attrs ds k : attrs ds = ∅ -> named ds k = false.
Proof. intros E. apply named_pretty_absent. by rewrite E. Qed.

(** C4: a name of the dataset that the pattern matches does not always
    give a dict with the five groups: for a dataset without attributes
    [_get_meta] raises [AttributeError] after the groups were read. *)
Theorem C4_between_no_attrs ds var m :
  var ∈ data_vars ds ->
  Re.match_ false pattern (chars var) = Some m ->
  attrs ds = ∅ ->
  _get_meta ds var = Raise AttributeError.
Proof.
  intros Hin Hm E.
  destruct (decodable_decodes var) as (a & b & c & d & e & Hd);
    [right; eauto|].
  destruct (_get_meta_decodes _ _ _ _ _ _ _ Hin Hd) as [-> _].
  apply (outcome_not_named _ _ _ _ _ _ d); [set_solver|].
  by apply named_no_attrs.
Qed.

(** C5: [_get_meta(ds, "n_obs")] does not give the dict of [n_obs]
    whatever the attributes: it raises [AttributeError] when the key
    [val_dc_pretty_name0] is not among them. *)
Theorem C5_n_obs_pretty_name_absent ds :
  "n_obs" ∈ data_vars ds ->
  attrs ds !! "val_dc_pretty_name0" = None ->
  _get_meta ds "n_obs" = Raise AttributeError.
Proof.
  intros Hin Hp.
  destruct (_get_meta_decodes ds "n_obs" _ _ _ _ _ Hin
              (decodes_n_obs _ eq_refl)) as [-> _].
  apply (outcome_not_named _ _ _ _ _ _ 1); [set_solver|].
  by apply named_pretty_absent.
Qed.

(** C6: a name of the dataset that is not [n_obs] and that the pattern
    does not match makes [_get_meta] raise an exception whose message
    quotes the name. *)
Theorem C6_no_match ds var :
  var ∈ data_vars ds ->
  var <> "n_obs" ->
  Re.match_ false pattern (chars var) = None ->
  _get_meta ds var =
    Raise (Exception
      ("The given var '" +:+ var +:+ "' does not match the regex pattern.")).
Proof.
  apply _get_meta_no_match.
Qed.

(** C7: a dict returned by [_get_meta] has exactly the eleven keys, the
    two numbers being integers and the other nine fields strings. *)
Theorem C7_all_fields ds var meta :
  _get_meta ds var = Ok meta ->
  dom meta =
    list_to_set ["metric"; "ref_no"; "ds_no"; "ref"; "ds";
                 "ref_pretty_name"; "ds_pretty_name";
                 "ref_version"; "ds_version";
                 "ref_version_pretty_name"; "ds_version_pretty_name"] /\
  (forall key, key ∈ ["metric"; "ref"; "ds";
                      "ref_pretty_name"; "ds_pretty_name";
                      "ref_version"; "ds_version";
                      "ref_version_pretty_name"; "ds_version_pretty_name"] ->
     exists s, meta !! key = Some (VStr s)) /\
  (forall key, key ∈ ["ref_no"; "ds_no"] ->
     exists z, meta !! key = Some (VInt z)).
Proof.
  intros H.
  apply _get_meta_Ok_inv in H
    as (_ & metric & ref_no & ref & ds_no & dsn & _ & _ & ->).
  split_and!.
  - unfold resolved, head_meta. rewrite !dom_insert_L, dom_empty_L.
    simpl. set_solver.
  - intros key Hkey.
    repeat (apply elem_of_cons in Hkey as [->|Hkey]);
      [resolved_lookup; eauto..|by apply elem_of_nil in Hkey].
  - intros key Hkey.
    repeat (apply elem_of_cons in Hkey as [->|Hkey]);
      [resolved_lookup; eauto..|by apply elem_of_nil in Hkey].
Qed.

Lemma outcome_attrs ds ds' metric ref_no ref ds_no dsn :
  attrs ds' = attrs ds ->
  outcome ds' metric ref_no ref ds_no dsn =
  outcome ds metric ref_no ref ds_no dsn.
Proof.
  intros E. unfold outcome, named, resolved, pretty_name_of, version_of,
    version_pretty_name_of.
  by rewrite E.
Qed.

(** C8 (amended): [_get_meta] itself checks that the name is a data
    variable of the dataset; for a name that is not, decodable or not, it
    raises an exception that quotes the name, and for a name that is, the
    outcome depends on the dataset through its attributes only. *)
Theorem C8_presence_checked ds var :
  (var ∉ data_vars ds ->
   _get_meta ds var =
     Raise (Exception
       ("The given var '" +:+ var +:+ "' is not contained in the dataset."))) /\
  (forall ds', var ∈ data_vars ds -> var ∈ data_vars ds' ->
     attrs ds' = attrs ds -> _get_meta ds' var = _get_meta ds var).
Proof.
  split.
  - intros Hin. unfold _get_meta. by rewrite _get_meta_body_absent.
  - intros ds' Hin Hin' E.
    destruct (Re.match_ false pattern (chars var)) as [m|] eqn:Hm.
    + destruct (decodable_decodes var) as (a & b & c & d & e & Hd);
        [right; eauto|].
      destruct (_get_meta_decodes _ _ _ _ _ _ _ Hin Hd) as [-> _].
      destruct (_get_meta_decodes _ _ _ _ _ _ _ Hin' Hd) as [-> _].
      by apply outcome_attrs.
    + destruct (decide (var = "n_obs")) as [->|Hne].
      * destruct (_get_meta_decodes ds "n_obs" _ _ _ _ _ Hin
                    (decodes_n_obs _ eq_refl)) as [-> _].
        destruct (_get_meta_decodes ds' "n_obs" _ _ _ _ _ Hin'
                    (decodes_n_obs _ eq_refl)) as [-> _].
        by apply outcome_attrs.
      * by rewrite !_get_meta_no_match.
Qed.

End resolve.

(** ** [get_metrics] *)

Section metrics.

Lemma list_remove_Raise {A} `{EqDecision A} (x : A) l e :
  list_remove x l = Raise e -> x ∉ l.
Proof.
  induction l as [|y l IH]; simpl; intros H.
  - apply not_elem_of_nil.
  - destruct (decide (y = x)) as [->|Hne]; [done|].
    destruct (list_remove x l) as [l''|e'] eqn:E; [done|].
    apply not_elem_of_cons. split; [done | by eapply IH].
Qed.

Lemma list_remove_Ok {A} `{EqDecision A} (x : A) l l' :
  list_remove x l = Ok l' ->
  x ∈ l /\ (forall y, y ∈ l' -> y ∈ l) /\
  (NoDup l ->
   NoDup l' /\ (x ∉ l') /\ (forall y, y <> x -> y ∈ l -> y ∈ l')).
Proof.
  revert l'. induction l as [|y l IH]; simpl; intros l' H; [done|].
  destruct (decide (y = x)) as [->|Hne].
  - injection H as <-. split_and!.
    + by left.
    + intros y Hy. by right.
    + intros [Hx Hl]%NoDup_cons. split_and!; [done..|].
      intros y Hy [?|?]%elem_of_cons; done.
  - destruct (list_remove x l) as [l''|e'] eqn:E; [|done].
    simpl in H. injection H as <-.
    destruct (IH _ eq_refl) as (Hx & Hsub & Hnd). split_and!.
    + by right.
    + intros z [->|Hz]%elem_of_cons; [by left | right; by apply Hsub].
    + intros [Hy Hl]%NoDup_cons.
      destruct (Hnd Hl) as (Hnd' & Hx' & Hkeep). split_and!.
      * apply NoDup_cons. split; [|done]. intros Hy'. by apply Hy, Hsub.
      * intros [->|Hx'']%elem_of_cons; done.
      * intros z Hz [->|Hzl]%elem_of_cons; [by left|].
        right. by apply Hkeep.
Qed.

Lemma metrics_loop_NoDup varmeta keys : forall metrics ms,
  NoDup metrics ->
  metrics_loop varmeta keys metrics = Ok ms -> NoDup ms.
Proof.
  induction keys as [|var keys IH]; simpl; intros metrics ms Hnd H.
  - by injection H as <-.
  - destruct (odict_get varmeta var) as [m|] eqn:E1; [|done]. simpl in H.
    destruct (dict_get m "metric") as [x|] eqn:E2; [|done]. simpl in H.
    eapply IH; [|done]. case_bool_decide; [done|].
    apply NoDup_app. split_and!; [done| |apply NoDup_singleton].
    by intros y Hy ->%list_elem_of_singleton.
Qed.

(** [_get_metrics] lists every metric once. *)
Lemma _get_metrics_NoDup ds ms : _get_metrics ds = Ok ms -> NoDup ms.
Proof.
  unfold _get_metrics. intros H.
  destruct (_get_varmeta ds None) as [varmeta|]; [|done]. simpl in H.
  eapply metrics_loop_NoDup; [|done]. apply NoDup_nil_2.
Qed.

(** C9: a list returned by [get_metrics] never holds [tau]; it holds
    [p_tau] exactly when the variables gave [p_tau] and did not give
    [tau], that is, [p_tau] is removed only after [tau] was. *)
Theorem C9_get_metrics_tau ds l :
  get_metrics ds = Ok l ->
  (VStr "tau" ∉ l) /\
  exists metrics, _get_metrics ds = Ok metrics /\
    (VStr "p_tau" ∈ l <->
     VStr "p_tau" ∈ metrics /\ (VStr "tau" ∉ metrics)).
Proof.
  unfold get_metrics. intros H.
  destruct (_get_metrics ds) as [metrics|] eqn:Hms; [|done].
  apply _get_metrics_NoDup in Hms as Hnd.
  simpl in H. injection H as <-.
  unfold try_except, mbind, ST_bind, metrics_remove.
  destruct (list_remove (VStr "tau") metrics) as [m1|e1] eqn:E1.
  - apply list_remove_Ok in E1 as (Hin1 & Hsub1 & Hnd1).
    destruct (Hnd1 Hnd) as (Hndm1 & Hout1 & _).
    destruct (list_remove (VStr "p_tau") m1) as [m2|e2] eqn:E2; simpl.
    + apply list_remove_Ok in E2 as (_ & Hsub2 & Hnd2).
      destruct (Hnd2 Hndm1) as (_ & Hout2 & _).
      split; [intros Ht; by apply Hout1, Hsub2|].
      exists metrics. split; [done|]. split; [done | by intros [_ ?]].
    + apply list_remove_Raise in E2.
      split; [done|].
      exists metrics. split; [done|]. split; [done | by intros [_ ?]].
  - apply list_remove_Raise in E1. simpl.
    split; [done|]. exists metrics. split; [done|]. tauto.
Qed.

End metrics.

(** ** [_get_var] *)

Section get_var.
Import Re ReFacts.

Lemma chars_app (a b : string) : chars (a +:+ b) = chars a ++ chars b.
Proof.
  unfold chars. induction a as [|c a IH]; simpl; [done|]. by rewrite IH.
Qed.

(** A character without a meaning of its own compiles to itself. *)
Lemma step_normal_plain st c :
  special c = false -> step_normal st c = Some (add_item (RLit c) st).
Proof.
  destruct c as [[] [] [] [] [] [] [] []]; try reflexivity;
    vm_compute; discriminate.
Qed.

Lemma steps_plain l : forall st,
  p_mode st = MNormal ->
  forallb (fun c => negb (special c)) l = true ->
  steps st l =
    Some (PState MNormal
            (Frame (f_grp (p_top st)) (f_alts (p_top st))
                   (rev (map RLit l) ++ f_seq (p_top st)))
            (p_stack st) (p_ngroups st) (p_names st)).
Proof.
  induction l as [|c l IH]; intros [md [g al sq] stack ng nm] Hmode Hl;
    simpl in *; subst md.
  - reflexivity.
  - apply andb_true_iff in Hl as [Hc Hl]. apply negb_true_iff in Hc.
    unfold step. simpl. rewrite step_normal_plain by done.
    rewrite IH by done. simpl. by rewrite <- app_assoc.
Qed.

(** The pattern [_get_var] builds from a plain metric name. *)
Lemma compile_plain metric :
  plain metric ->
  compile ("^" +:+ metric +:+ "_between") =
    Some (RSeq RBol (seq_of (map RLit (chars metric ++ chars "_between")))).
Proof.
  intros Hp. unfold compile. fold (chars ("^" +:+ metric +:+ "_between")).
  rewrite !chars_app. change (chars "^") with ["^"%char].
  cbn [app steps]. unfold step. cbn [p_mode init step_normal].
  rewrite steps_plain; [| done |].
  - unfold finish. cbn. rewrite rev_app_distr, rev_involutive. cbn.
    by destruct (chars metric).
  - rewrite forallb_app. apply andb_true_iff. split; [exact Hp | reflexivity].
Qed.

(** A sequence of literals under [re.I] reads a prefix, letter case
    apart. *)
Lemma bt_literals l : forall st k,
  l <> [] ->
  bt true (seq_of (map RLit l)) st k =
    if begins_I l (rest st) then k (skip (length l) st) else None.
Proof.
  induction l as [|c l IH]; intros st k Hl; [done|].
  destruct l as [|c' l].
  - simpl. destruct st as [p [|ch tl] cp]; simpl; [done|].
    unfold lit_eq. case_bool_decide; simpl; [|done].
    unfold advance, skip. simpl. by rewrite Nat.add_1_r, drop_0.
  - change (seq_of (map RLit (c :: c' :: l)))
      with (RSeq (RLit c) (seq_of (map RLit (c' :: l)))).
    cbn [bt]. destruct st as [p [|ch tl] cp]; cbn [rest]; [done|].
    unfold lit_eq.
    change (begins_I (c :: c' :: l) (ch :: tl))
      with (bool_decide (Char.lower c = Char.lower ch)
            && begins_I (c' :: l) tl).
    case_bool_decide; cbn [andb]; [|done].
    rewrite IH by done. cbn [advance rest pos caps].
    destruct (begins_I (c' :: l) tl); [|done].
    unfold skip, advance. cbn [length rest pos caps drop].
    by rewrite Nat.add_succ_comm.
Qed.

(** A pattern that starts with [^] matches at position 0 only. *)
Lemma search_from_bol ic r s : forall p,
  (0 < p)%nat -> search_from ic (RSeq RBol r) p s = None.
Proof.
  induction s as [|c s IH]; intros p Hp; simpl;
    destruct (Nat.eqb_spec p 0); try lia; [done|].
  apply IH. lia.
Qed.

Lemma re_search_I_plain metric var :
  plain metric ->
  re_search_I ("^" +:+ metric +:+ "_between") var =
    Some (begins_with_I (metric +:+ "_between") var).
Proof.
  intros Hp. unfold re_search_I. rewrite compile_plain by done.
  cbn [mbind option_bind]. f_equal. unfold begins_with_I. rewrite chars_app.
  remember (chars metric ++ chars "_between") as l eqn:El.
  assert (l <> []) as Hl by (subst l; by destruct (chars metric)).
  clear El.
  unfold search. destruct (chars var) as [|c s] eqn:Hv; cbn [search_from bt];
    cbn [pos Nat.eqb]; rewrite bt_literals by done; cbn [rest].
  - by destruct l.
  - destruct (begins_I l (c :: s)).
    + apply bool_decide_eq_true_2. eauto.
    + rewrite search_from_bol by lia.
      by apply bool_decide_eq_false_2, is_Some_None.
Qed.

Lemma select_plain metric vars :
  plain metric ->
  select ("^" +:+ metric +:+ "_between") vars =
    Some (List.filter (begins_with_I (metric +:+ "_between")) vars).
Proof.
  intros Hp. induction vars as [|var vars IH]; [done|].
  cbn [select List.filter]. rewrite re_search_I_plain by done.
  rewrite IH. simpl. by destruct (begins_with_I _ var).
Qed.

(** C10 (amended): for a metric name without characters that have a
    meaning of their own in a pattern, [_get_var] returns the data
    variables whose names begin with the metric name followed by
    [_between], letter case apart, in the order of the dataset; for
    [n_obs] it returns the list with [n_obs] alone, whatever the dataset
    holds. *)
Theorem C10_get_var_plain ds metric :
  plain metric ->
  _get_var ds metric =
    Some (if bool_decide (metric = "n_obs") then ["n_obs"]
          else List.filter (begins_with_I (metric +:+ "_between"))
                 (data_vars ds)).
Proof.
  intros Hp. unfold _get_var. case_bool_decide as Hm.
  - by rewrite Hm.
  - by apply select_plain.
Qed.

End get_var.

(** ** The claims at the example data *)

Section examples.

Ltac by_compute := apply (bool_decide_unpack _); vm_compute; exact I.

Lemma example_var_in : example_var ∈ data_vars example_ds.
Proof. by_compute. Defined.

Lemma example_var_decodable : decodable example_var.
Proof. unfold decodable. by_compute. Defined.

Lemma bare_var_in : example_var ∈ data_vars bare_ds.
Proof. by_compute. Defined.

Lemma example_var_match :
  Re.match_ false pattern (chars example_var) = Some example_match.
Proof. vm_compute. reflexivity. Defined.

Lemma example_decodes : decodes example_var "R" 1 "ISMN" 2 "SMAP".
Proof.
  apply (decodes_between example_var example_match
           (chars "R") (chars "1") (chars "ISMN") (chars "2") (chars "SMAP")).
  - exact example_var_match.
  - vm_compute. reflexivity.
  - split; [discriminate | reflexivity].
  - split; [discriminate | reflexivity].
Defined.

Lemma C1_witness : _get_meta bare_ds example_var = Raise AttributeError.
Proof.
  apply (C1_pretty_name_fallback bare_ds example_var "R" 1 "ISMN" 2 "SMAP" 2
           bare_var_in example_decodes).
  - by_compute.
  - vm_compute. reflexivity.
Defined.

Lemma C2_witness :
  _get_meta bare_ds example_var = Raise AttributeError /\
  _get_meta_reads bare_ds example_var = ["val_dc_pretty_name" +:+ str (2 - 1)].
Proof.
  apply (C2_version_not_reached bare_ds example_var "R" 1 "ISMN" 2 "SMAP"
           bare_var_in example_decodes).
  vm_compute. reflexivity.
Defined.

Lemma versioned_var_in : example_var ∈ data_vars versioned_ds.
Proof. by_compute. Defined.

Lemma C3_witness : _get_meta versioned_ds example_var = Raise AttributeError.
Proof.
  apply (C3_version_pretty_name_fallback versioned_ds example_var
           "R" 1 "ISMN" 2 "SMAP" 2 "SMAP_V5_PM"
           versioned_var_in example_decodes).
  - by_compute.
  - vm_compute. reflexivity.
  - vm_compute. reflexivity.
Defined.

Lemma C4_witness : _get_meta bare_ds example_var = Raise AttributeError.
Proof.
  apply (C4_between_no_attrs bare_ds example_var example_match
           bare_var_in example_var_match).
  reflexivity.
Defined.

Lemma bare_n_obs_in : "n_obs" ∈ data_vars bare_ds.
Proof. by_compute. Defined.

Lemma C5_witness : _get_meta bare_ds "n_obs" = Raise AttributeError.
Proof.
  apply (C5_n_obs_pretty_name_absent bare_ds bare_n_obs_in).
  vm_compute. reflexivity.
Defined.

Lemma odd_var_in : "not_a_valid_name" ∈ data_vars odd_ds.
Proof. by_compute. Defined.

Lemma odd_var_not_n_obs : "not_a_valid_name" <> "n_obs".
Proof. discriminate. Defined.

Lemma odd_var_no_match :
  Re.match_ false pattern (chars "not_a_valid_name") = None.
Proof. vm_compute. reflexivity. Defined.

Lemma C6_witness :
  _get_meta odd_ds "not_a_valid_name" =
    Raise (Exception
      "The given var 'not_a_valid_name' does not match the regex pattern.").
Proof.
  apply (C6_no_match odd_ds "not_a_valid_name"
           odd_var_in odd_var_not_n_obs odd_var_no_match).
Defined.

Lemma example_meta_returned :
  _get_meta example_ds example_var = Ok example_meta.
Proof. vm_compute. reflexivity. Defined.

Lemma C7_witness :
  dom example_meta =
    list_to_set ["metric"; "ref_no"; "ds_no"; "ref"; "ds";
                 "ref_pretty_name"; "ds_pretty_name";
                 "ref_version"; "ds_version";
                 "ref_version_pretty_name"; "ds_version_pretty_name"] /\
  (forall key, key ∈ ["metric"; "ref"; "ds";
                      "ref_pretty_name"; "ds_pretty_name";
                      "ref_version"; "ds_version";
                      "ref_version_pretty_name"; "ds_version_pretty_name"] ->
     exists s, example_meta !! key = Some (VStr s)) /\
  (forall key, key ∈ ["ref_no"; "ds_no"] ->
     exists z, example_meta !! key = Some (VInt z)).
Proof.
  apply (C7_all_fields example_ds example_var example_meta
           example_meta_returned).
Defined.

(** C8, refuted as stated: on the decodable name [n_obs], and with the
    same attributes, [_get_meta] returns for a dataset that holds the
    variable and raises for one that does not. *)
Lemma C8_counterexample :
  decodable "n_obs" /\
  attrs empty_ds = attrs n_obs_ds /\
  (exists meta, _get_meta n_obs_ds "n_obs" = Ok meta) /\
  _get_meta empty_ds "n_obs" =
    Raise (Exception "The given var 'n_obs' is not contained in the dataset.").
Proof.
  split_and!; [by left | done | | by vm_compute].
  eexists. vm_compute. reflexivity.
Qed.

Lemma C8_witness :
  _get_meta empty_ds "n_obs" =
    Raise (Exception "The given var 'n_obs' is not contained in the dataset.")
  /\ _get_meta odd_ds "n_obs" = _get_meta n_obs_ds "n_obs".
Proof.
  split.
  - apply (proj1 (C8_presence_checked empty_ds "n_obs")).
    apply not_elem_of_nil.
  - apply (proj2 (C8_presence_checked n_obs_ds "n_obs") odd_ds).
    + by_compute.
    + by_compute.
    + reflexivity.
Defined.

Lemma example_metrics :
  get_metrics example_ds =
    Ok [VStr "n_obs"; VStr "R"; VStr "rmsd"; VStr "p_tau"].
Proof. vm_compute. reflexivity. Defined.

Lemma C9_witness :
  (VStr "tau" ∉ [VStr "n_obs"; VStr "R"; VStr "rmsd"; VStr "p_tau"]) /\
  exists metrics, _get_metrics example_ds = Ok metrics /\
    (VStr "p_tau" ∈ [VStr "n_obs"; VStr "R"; VStr "rmsd"; VStr "p_tau"] <->
     VStr "p_tau" ∈ metrics /\ (VStr "tau" ∉ metrics)).
Proof. apply (C9_get_metrics_tau example_ds _ example_metrics). Defined.

(** C10, refuted as stated: for the metric name [.], which is not
    [n_obs], a variable is returned although no name of the dataset begins
    with [._between]. *)
Lemma C10_counterexample :
  "." <> "n_obs" /\
  _get_var example_ds "." = Some [example_var] /\
  List.filter (begins_with_I ("." +:+ "_between")) (data_vars example_ds) = [].
Proof. split_and!; [discriminate | by vm_compute | by vm_compute]. Qed.

Lemma plain_R : plain "R".
Proof. reflexivity. Defined.

Lemma C10_witness :
  _get_var example_ds "R" =
    Some (if bool_decide ("R" = "n_obs") then ["n_obs"]
          else List.filter (begins_with_I ("R" +:+ "_between"))
                 (data_vars example_ds)).
Proof. apply (C10_get_var_plain example_ds "R" plain_R). Defined.

End examples.

(** * More properties *)

(** ** [_get_meta]: failures, the record, the attributes *)

Section meta_more.

(** Every way in which [_get_meta] returns, with the shape of the name. *)
Lemma _get_meta_Ok_shape ds var meta :
  _get_meta ds var = Ok meta ->
  var ∈ data_vars ds /\
  ((var = "n_obs" /\ meta = resolved ds "n_obs" 1 "GLDAS" 1 "GLDAS") \/
   exists g1 g2 g3 g4 g5 tl,
     between_shape (chars var) g1 g2 g3 g4 g5 tl /\
     meta = resolved ds (string_of_list_ascii g1) (digits_value g2)
              (string_of_list_ascii g3) (digits_value g4)
              (string_of_list_ascii g5)).
Proof.
  intros H.
  destruct (decide (var ∈ data_vars ds)) as [Hin|Hin]; cycle 1.
  { unfold _get_meta in H. by rewrite _get_meta_body_absent in H. }
  split; [done|].
  destruct (Re.match_ false pattern (chars var)) as [m|] eqn:Hm.
  - destruct (pattern_match_inv _ _ Hm)
      as (g1 & g2 & g3 & g4 & g5 & Hs & Hc).
    pose proof Hs as (_ & _ & H2 & _ & H4 & _).
    assert (decodes var (string_of_list_ascii g1) (digits_value g2)
              (string_of_list_ascii g3) (digits_value g4)
              (string_of_list_ascii g5)) as Hd
      by (eapply decodes_between; eassumption).
    destruct (_get_meta_decodes _ _ _ _ _ _ _ Hin Hd) as [E _].
    rewrite E in H. apply outcome_Ok in H as (_ & _ & ->).
    right. eauto 10.
  - destruct (decide (var = "n_obs")) as [->|Hne].
    + destruct (_get_meta_decodes ds "n_obs" _ _ _ _ _ Hin
                  (decodes_n_obs _ eq_refl)) as [E _].
      rewrite E in H. apply outcome_Ok in H as (_ & _ & ->). by left.
    + unfold _get_meta in H. by rewrite _get_meta_body_no_match in H.
Qed.

(** X1: [_get_meta] raises in three cases only: for a name that is not a
    data variable of the dataset; for a data variable that is neither
    [n_obs] nor matched by the pattern; and, with [AttributeError], for a
    decodable data variable one of whose two roles comes to a table of
    [globals], its pretty name not being an attribute, or its version
    being one and the pretty name of the version not. *)
Theorem X1_get_meta_raises ds var e :
  _get_meta ds var = Raise e <->
  ((var ∉ data_vars ds) /\
   e = Exception
         ("The given var '" +:+ var +:+ "' is not contained in the dataset."))
  \/
  (var ∈ data_vars ds /\ ~ decodable var /\
   e = Exception
         ("The given var '" +:+ var +:+
          "' does not match the regex pattern."))
  \/
  (var ∈ data_vars ds /\
   (exists metric ref_no ref ds_no dsn,
      decodes var metric ref_no ref ds_no dsn /\
      (named ds ds_no = false \/ named ds ref_no = false)) /\
   e = AttributeError).
Proof.
  destruct (decide (var ∈ data_vars ds)) as [Hin|Hin]; cycle 1.
  { unfold _get_meta. rewrite _get_meta_body_absent by done. simpl. split.
    - intros [= <-]. by left.
    - by intros [[_ ->]|[[? _]|[? _]]]. }
  destruct (decide (decodable var)) as [Hd|Hd].
  - apply decodable_decodes in Hd as Hd'.
    destruct Hd' as (a & b & c & d & e' & Hd').
    destruct (_get_meta_decodes _ _ _ _ _ _ _ Hin Hd') as [-> _].
    rewrite outcome_Raise. split.
    + intros [Hn ->]. right. right. split; [done|]. split; [|done].
      eauto 10.
    + intros [[? _]|[(_ & ? & _)|(_ & Hn & ->)]]; [done..|].
      destruct Hn as (a' & b' & c' & d' & e'' & Hd'' & Hn).
      destruct (_get_meta_decodes _ _ _ _ _ _ _ Hin Hd'') as [E _].
      destruct (_get_meta_decodes _ _ _ _ _ _ _ Hin Hd') as [E' _].
      rewrite E in E'. symmetry in E'.
      assert (outcome ds a' b' c' d' e'' = Raise AttributeError) as Ha
        by (by apply outcome_Raise).
      rewrite Ha in E'. by apply outcome_Raise in E'.
  - apply not_decodable in Hd as Hd'. destruct Hd' as [Hne Hm].
    unfold _get_meta. rewrite _get_meta_body_no_match by done. simpl. split.
    + intros [= <-]. right. by left.
    + intros [[? _]|[(_ & _ & ->)|(_ & Hn & _)]]; [done..|].
      destruct Hn as (a' & b' & c' & d' & e'' & Hd'' & _). destruct Hd.
      destruct Hd'' as [m ? ? ? ? ? Hm' _ _ _| ->]; [right|by left].
      rewrite Hm'. eauto.
Qed.

Lemma digit_value_nonneg c :
  Char.is_digit c = true -> (0 <= digit_value c)%Z.
Proof.
  unfold Char.is_digit, Char.between, digit_value.
  intros [H _]%andb_true_iff. apply N.leb_le in H. lia.
Qed.

Lemma digits_value_nonneg g :
  forallb Char.is_digit g = true -> (0 <= digits_value g)%Z.
Proof.
  unfold digits_value.
  cut (forall acc, (0 <= acc)%Z ->
         forallb Char.is_digit g = true ->
         (0 <= fold_left (fun acc c => 10 * acc + digit_value c) g acc)%Z).
  { intros H. by apply H. }
  induction g as [|c g IH]; intros acc Hacc Hg; simpl in *; [done|].
  apply andb_true_iff in Hg as [Hc Hg]. apply IH; [|done].
  apply digit_value_nonneg in Hc. lia.
Qed.

(** X2: in a dict returned by [_get_meta] the metric is not empty and has
    no digit, the two numbers are not negative, and the two names are not
    empty and have no white space. *)
Theorem X2_get_meta_record ds var meta :
  _get_meta ds var = Ok meta ->
  exists metric ref_no ref ds_no dsn,
    (meta !! "metric" = Some (VStr metric) /\
     meta !! "ref_no" = Some (VInt ref_no) /\
     meta !! "ref" = Some (VStr ref) /\
     meta !! "ds_no" = Some (VInt ds_no) /\
     meta !! "ds" = Some (VStr dsn)) /\
    (chars metric <> [] /\
     forallb (fun c => negb (Char.is_digit c)) (chars metric) = true) /\
    (0 <= ref_no /\ 0 <= ds_no)%Z /\
    (chars ref <> [] /\
     forallb (fun c => negb (Char.is_space c)) (chars ref) = true) /\
    (chars dsn <> [] /\
     forallb (fun c => negb (Char.is_space c)) (chars dsn) = true).
Proof.
  intros H. apply _get_meta_Ok_shape in H as [_ [[_ ->]|H]].
  - exists "n_obs", 1%Z, "GLDAS", 1%Z, "GLDAS".
    split; [split_and!; by resolved_lookup|]. by vm_compute.
  - destruct H as (g1 & g2 & g3 & g4 & g5 & tl & Hs & ->).
    destruct Hs as (_ & [? ?] & [? ?] & [? ?] & [? ?] & [? ?]).
    eexists _, _, _, _, _.
    split; [split_and!; by resolved_lookup|].
    rewrite !chars_of_list.
    split_and!; try done; by apply digits_value_nonneg.
Qed.

(** X3: the outcome of [_get_meta] depends on the attributes through the
    keys it subscripts only: a dataset that agrees on these keys, and on
    whether the name is a data variable, gives the same outcome. *)
Theorem X3_get_meta_attrs ds ds' var :
  (var ∈ data_vars ds' <-> var ∈ data_vars ds) ->
  (forall key, key ∈ _get_meta_reads ds var ->
     attrs ds' !! key = attrs ds !! key) ->
  _get_meta ds' var = _get_meta ds var.
Proof.
  intros Hvar Hkeys.
  destruct (decide (var ∈ data_vars ds)) as [Hin|Hin]; cycle 1.
  { unfold _get_meta. rewrite !_get_meta_body_absent; [done..|].
    by rewrite Hvar. }
  assert (var ∈ data_vars ds') as Hin' by (by apply Hvar).
  destruct (decide (decodable var)) as [Hd|Hd].
  - apply decodable_decodes in Hd as (a & b & c & d & e' & Hd).
    destruct (_get_meta_decodes _ _ _ _ _ _ _ Hin Hd) as [E R].
    destruct (_get_meta_decodes _ _ _ _ _ _ _ Hin' Hd) as [E' _].
    rewrite E, E'. rewrite R in Hkeys.
    assert (forall k,
      (forall key, key ∈ keys_read ds k ->
         attrs ds' !! key = attrs ds !! key) ->
      named ds' k = named ds k /\
      (named ds k = true ->
       pretty_name_of ds' k = pretty_name_of ds k /\
       version_of ds' k = version_of ds k /\
       version_pretty_name_of ds' k = version_pretty_name_of ds k)) as Hsame.
    { intros k Hk.
      unfold named, pretty_name_of, version_of, version_pretty_name_of.
      unfold keys_read in Hk.
      rewrite (Hk (pretty_key k)) by (by left).
      destruct (attrs ds !! pretty_key k) as [p|]; [|done].
      rewrite (Hk (version_key k)) by (right; by left).
      destruct (attrs ds !! version_key k) as [v|]; [|done].
      by rewrite (Hk (version_pretty_key k)) by (do 2 right; by left). }
    unfold resolved_reads in Hkeys. unfold outcome, resolved.
    destruct (Hsame d) as [-> Hd_].
    { intros key Hk. apply Hkeys, elem_of_app. by left. }
    destruct (named ds d) eqn:En; [|done].
    destruct (Hsame b) as [-> Hb_].
    { intros key Hk. apply Hkeys, elem_of_app. by right. }
    destruct (named ds b) eqn:Eb; [|done]. simpl.
    destruct (Hd_ eq_refl) as (-> & -> & ->).
    destruct (Hb_ eq_refl) as (-> & -> & ->).
    reflexivity.
  - apply not_decodable in Hd as [Hne Hm].
    by rewrite !_get_meta_no_match.
Qed.

End meta_more.

(** ** [_get_varmeta] *)

Section varmeta_more.

Lemma filter_absent {A} `{EqDecision A} (x : A) l :
  x ∉ l -> List.filter (fun y => negb (bool_decide (y = x))) l = l.
Proof.
  induction l as [|y l IH]; simpl; [done|].
  intros [Hy Hl]%not_elem_of_cons.
  rewrite bool_decide_false by done. simpl. by rewrite IH.
Qed.

Lemma list_remove_absent {A} `{EqDecision A} (x : A) l :
  x ∉ l -> list_remove x l = Raise ValueError.
Proof.
  induction l as [|y l IH]; simpl; [done|].
  intros [Hy Hl]%not_elem_of_cons.
  destruct (decide (y = x)); [done|]. by rewrite IH.
Qed.

(** In a list without repetitions, [remove] drops every occurrence. *)
Lemma list_remove_filter {A} `{EqDecision A} (x : A) l :
  NoDup l -> x ∈ l ->
  list_remove x l = Ok (List.filter (fun y => negb (bool_decide (y = x))) l).
Proof.
  induction l as [|y l IH]; simpl; intros Hnd Hx.
  - by apply elem_of_nil in Hx.
  - apply NoDup_cons in Hnd as [Hy Hnd].
    destruct (decide (y = x)) as [->|Hne].
    + rewrite bool_decide_true by done. simpl. by rewrite filter_absent.
    + rewrite bool_decide_false by done. simpl.
      apply elem_of_cons in Hx as [->|Hx]; [done|].
      by rewrite IH.
Qed.

Lemma elem_of_filter_bool {A} (f : A -> bool) l x :
  x ∈ List.filter f l <-> x ∈ l /\ f x = true.
Proof. rewrite !list_elem_of_In. apply filter_In. Qed.

Lemma NoDup_filter_bool {A} (f : A -> bool) l :
  NoDup l -> NoDup (List.filter f l).
Proof.
  induction l as [|y l IH]; simpl; intros Hnd; [done|].
  apply NoDup_cons in Hnd as [Hy Hnd].
  destruct (f y); [|by apply IH].
  apply NoDup_cons. split; [|by apply IH].
  rewrite elem_of_filter_bool. by intros [? _].
Qed.

Lemma filter_all {A} (f : A -> bool) l :
  (forall x, x ∈ l -> f x = true) -> List.filter f l = l.
Proof.
  induction l as [|y l IH]; simpl; intros H; [done|].
  rewrite H by (by left). rewrite IH; [done|]. intros x Hx. apply H. by right.
Qed.

Lemma remove_indices_filter indices : forall variables,
  NoDup variables -> NoDup indices ->
  remove_indices variables indices =
    (List.filter (fun v => negb (bool_decide (v ∈ indices))) variables,
     (fun index => index +:+ " is not in variables.") <$>
       List.filter (fun index => negb (bool_decide (index ∈ variables)))
         indices).
Proof.
  induction indices as [|index indices IH]; intros variables Hv Hi.
  - simpl. f_equal. symmetry. by apply filter_all.
  - apply NoDup_cons in Hi as [Hindex Hi]. cbn [remove_indices].
    destruct (decide (index ∈ variables)) as [Hin|Hin].
    + rewrite list_remove_filter by done.
      rewrite IH by (done || by apply NoDup_filter_bool).
      cbn [List.filter]. rewrite (bool_decide_true (index ∈ variables)) by done.
      cbn [negb]. f_equal.
      * induction variables as [|v l IHl]; simpl; [done|].
        apply NoDup_cons in Hv as [Hvl Hv].
        destruct (decide (v = index)) as [->|Hne].
        -- rewrite bool_decide_true by done. simpl.
           rewrite (bool_decide_true (index ∈ index :: indices)) by (by left).
           simpl. rewrite filter_absent by done.
           apply filter_ext_in. intros a Ha%list_elem_of_In.
           f_equal. apply bool_decide_ext. rewrite elem_of_cons.
           split; [by right|]. intros [->|?]; done.
        -- rewrite bool_decide_false by done. simpl.
           apply elem_of_cons in Hin as [->|Hin]; [done|].
           rewrite IHl by done.
           replace (bool_decide (v ∈ index :: indices))
             with (bool_decide (v ∈ indices)); [done|].
           apply bool_decide_ext. rewrite elem_of_cons.
           split; [by right|]. intros [->|?]; done.
      * f_equal. apply filter_ext_in. intros a Ha%list_elem_of_In.
        f_equal. apply bool_decide_ext. rewrite elem_of_filter_bool.
        split; [by intros [? _]|]. intros Ha'. split; [done|].
        rewrite bool_decide_false; [done|]. by intros ->.
    + rewrite list_remove_absent by done.
      rewrite IH by done.
      cbn [List.filter]. rewrite (bool_decide_false (index ∈ variables)) by done.
      cbn [negb fmap list_fmap]. f_equal.
      apply filter_ext_in. intros a Ha%list_elem_of_In.
      f_equal. apply bool_decide_ext. rewrite elem_of_cons.
      split; [by right|]. intros [->|?]; done.
Qed.

(** X4: when no variables are given, and the data variables are all
    different, [_get_varmeta] takes the data variables that are not
    [lat], [lon] or [gpi], in their order, and warns once for each of the
    three that is not a data variable. *)
Theorem X4_default_variables ds :
  NoDup (data_vars ds) ->
  default_variables ds =
    List.filter (fun v => negb (is_index v)) (data_vars ds) /\
  default_warnings ds =
    (fun index => index +:+ " is not in variables.") <$>
      List.filter (fun index => negb (bool_decide (index ∈ data_vars ds)))
        ["lat"; "lon"; "gpi"].
Proof.
  intros Hnd. unfold default_variables, default_warnings.
  rewrite remove_indices_filter; [done|done|].
  apply (bool_decide_unpack _). by vm_compute.
Qed.

Lemma odict_get_set_eq {V} k (v : V) d : odict_get (odict_set k v d) k = Ok v.
Proof.
  induction d as [|[k' v'] d IH]; simpl.
  - by rewrite decide_True.
  - destruct (decide (k' = k)) as [->|Hne]; simpl.
    + by rewrite decide_True.
    + by rewrite decide_False.
Qed.

Lemma odict_get_set_ne {V} k k' (v : V) d :
  k <> k' -> odict_get (odict_set k v d) k' = odict_get d k'.
Proof.
  intros Hne. induction d as [|[k0 v0] d IH]; simpl.
  - by rewrite decide_False.
  - destruct (decide (k0 = k)) as [->|Hne0]; simpl.
    + by rewrite !decide_False.
    + by rewrite IH.
Qed.

Lemma odict_set_keys {V} k (v : V) d :
  (odict_set k v d).*1 = if bool_decide (k ∈ d.*1) then d.*1 else d.*1 ++ [k].
Proof.
  induction d as [|[k0 v0] d IH]; [done|]. cbn [odict_set].
  destruct (decide (k0 = k)) as [->|Hne]; rewrite !fmap_cons; cbn [fst].
  - by rewrite bool_decide_true by (by left).
  - rewrite IH. case_bool_decide as Hk.
    + by rewrite bool_decide_true by (by right).
    + rewrite bool_decide_false; [done|].
      intros [?|?]%elem_of_cons; done.
Qed.

(** What the dict comprehension gives when it returns. *)
Lemma comprehension_Ok ds variables : forall acc d,
  comprehension ds variables acc = Ok d ->
  (forall var, var ∈ variables ->
     exists m, _get_meta ds var = Ok m /\ odict_get d var = Ok m) /\
  (forall k, k ∉ variables -> odict_get d k = odict_get acc k) /\
  (forall k, k ∈ d.*1 <-> k ∈ acc.*1 \/ k ∈ variables) /\
  (NoDup acc.*1 -> NoDup d.*1) /\
  (NoDup variables -> (forall var, var ∈ variables -> var ∉ acc.*1) ->
   d.*1 = acc.*1 ++ variables).
Proof.
  induction variables as [|var variables IH]; intros acc d H; simpl in H.
  - injection H as <-. split_and!; try done.
    + by intros var ?%elem_of_nil.
    + intros k. split; [by left|]. by intros [?|?%elem_of_nil].
    + intros _ _. by rewrite app_nil_r.
  - destruct (_get_meta ds var) as [m|] eqn:Hm; [|done]. simpl in H.
    apply IH in H as (Hvals & Hkeep & Hkeys & Hnd & Hord). split_and!.
    + intros v [->|Hv]%elem_of_cons; [|by apply Hvals].
      destruct (decide (var ∈ variables)) as [Hv|Hv]; [by apply Hvals|].
      exists m. split; [done|]. by rewrite Hkeep, odict_get_set_eq.
    + intros k [Hk Hk']%not_elem_of_cons.
      by rewrite Hkeep, odict_get_set_ne.
    + intros k. rewrite Hkeys, odict_set_keys, elem_of_cons.
      case_bool_decide as Hvar; [|rewrite elem_of_app, list_elem_of_singleton].
      * split; [tauto|]. intros [?|[->|?]]; tauto.
      * tauto.
    + intros Hacc. apply Hnd. rewrite odict_set_keys.
      case_bool_decide as Hvar; [done|].
      apply NoDup_app. split_and!; [done| |apply NoDup_singleton].
      by intros k Hk ->%list_elem_of_singleton.
    + intros [Hvar Hnd']%NoDup_cons Hfresh.
      rewrite Hord; [|done|].
      * rewrite odict_set_keys, bool_decide_false by (apply Hfresh; by left).
        by rewrite <- app_assoc.
      * intros v Hv. rewrite odict_set_keys.
        rewrite bool_decide_false by (apply Hfresh; by left).
        rewrite elem_of_app, list_elem_of_singleton.
        intros [Hv'| ->]; [|done]. revert Hv'. apply Hfresh. by right.
Qed.

(** The comprehension returns when every variable can be resolved. *)
Lemma comprehension_returns ds variables : forall acc,
  (forall var, var ∈ variables -> exists m, _get_meta ds var = Ok m) ->
  exists d, comprehension ds variables acc = Ok d.
Proof.
  induction variables as [|var variables IH]; intros acc H; simpl.
  - eauto.
  - destruct (H var) as [m ->]; [by left|]. simpl.
    apply IH. intros v Hv. apply H. by right.
Qed.

(** The comprehension raises what the first variable that cannot be
    resolved raises. *)
Lemma comprehension_raises ds good bad rest e : forall acc,
  (forall var, var ∈ good -> exists m, _get_meta ds var = Ok m) ->
  _get_meta ds bad = Raise e ->
  comprehension ds (good ++ bad :: rest) acc = Raise e.
Proof.
  induction good as [|var good IH]; intros acc H Hbad; simpl.
  - by rewrite Hbad.
  - destruct (H var) as [m ->]; [by left|]. simpl.
    apply IH; [|done]. intros v Hv. apply H. by right.
Qed.

Lemma comprehension_Raise ds variables e : forall acc,
  comprehension ds variables acc = Raise e ->
  exists good bad rest,
    variables = good ++ bad :: rest /\
    (forall var, var ∈ good -> exists m, _get_meta ds var = Ok m) /\
    _get_meta ds bad = Raise e.
Proof.
  induction variables as [|var variables IH]; intros acc H; simpl in H.
  - done.
  - destruct (_get_meta ds var) as [m|e'] eqn:Hm; simpl in H.
    + apply IH in H as (good & bad & rest & -> & Hgood & Hbad).
      exists (var :: good), bad, rest. split_and!; [done| |done].
      intros v [->|Hv]%elem_of_cons; eauto.
    + injection H as ->. exists [], var, variables.
      split_and!; [done| |done]. by intros v ?%elem_of_nil.
Qed.

(** X5: for a list of variables that is not empty, each of which
    [_get_meta] resolves, [_get_varmeta] returns a dict that maps each of
    them to what [_get_meta] returns for it; its keys are the variables,
    each once, and in the order given when none is repeated. *)
Theorem X5_get_varmeta_returns ds variables :
  variables <> [] ->
  (forall var, var ∈ variables -> exists m, _get_meta ds var = Ok m) ->
  exists d, _get_varmeta ds (Some variables) = Ok d /\
    (forall var, var ∈ variables -> odict_get d var = _get_meta ds var) /\
    (forall k, k ∈ d.*1 <-> k ∈ variables) /\
    NoDup d.*1 /\
    (NoDup variables -> d.*1 = variables).
Proof.
  intros Hne Hret.
  destruct (comprehension_returns ds variables [] Hret) as [d Hd].
  exists d. split.
  { unfold _get_varmeta. by destruct variables. }
  apply comprehension_Ok in Hd as (Hvals & _ & Hkeys & Hnd & Hord).
  split_and!.
  - intros v Hv. destruct (Hvals v Hv) as (m & -> & ->). done.
  - intros k. rewrite Hkeys. simpl. split; [|by right].
    by intros [?%elem_of_nil|?].
  - apply Hnd. apply NoDup_nil_2.
  - intros Hv. rewrite Hord; [done|done|]. intros v _. apply not_elem_of_nil.
Qed.

(** X6: [_get_varmeta] is all or nothing: when [_get_meta] resolves the
    variables before one for which it raises, [_get_varmeta] raises the
    same exception, whatever comes after that variable. *)
Theorem X6_get_varmeta_raises ds good bad rest e :
  (forall var, var ∈ good -> exists m, _get_meta ds var = Ok m) ->
  _get_meta ds bad = Raise e ->
  _get_varmeta ds (Some (good ++ bad :: rest)) = Raise e.
Proof.
  intros Hgood Hbad.
  assert (_get_varmeta ds (Some (good ++ bad :: rest)) =
          comprehension ds (good ++ bad :: rest) []) as ->
    by (unfold _get_varmeta; by destruct good).
  by apply comprehension_raises.
Qed.

End varmeta_more.

(** ** [_get_metrics] and [get_metrics] *)

Section metrics_more.

Lemma _get_varmeta_default ds :
  _get_varmeta ds None = comprehension ds (default_variables ds) [].
Proof. reflexivity. Qed.

Lemma _get_meta_metric ds var m :
  _get_meta ds var = Ok m -> exists x, m !! "metric" = Some (VStr x).
Proof.
  intros H.
  apply _get_meta_Ok_inv in H as (_ & metric & ? & ? & ? & ? & _ & _ & E).
  subst m. exists metric. by resolved_lookup.
Qed.

(** The loop of [_get_metrics] collects the metrics of the keys. *)
Lemma metrics_loop_spec d keys : forall acc,
  (forall k, k ∈ keys ->
     exists m x, odict_get d k = Ok m /\ m !! "metric" = Some x) ->
  exists ms, metrics_loop d keys acc = Ok ms /\
    forall x, x ∈ ms <->
      x ∈ acc \/
      exists k m, k ∈ keys /\ odict_get d k = Ok m /\ m !! "metric" = Some x.
Proof.
  induction keys as [|k keys IH]; intros acc H; simpl.
  - exists acc. split; [done|]. intros x. split; [by left|].
    intros [?|(? & ? & ?%elem_of_nil & _)]; done.
  - destruct (H k) as (m & x & Hm & Hx); [by left|].
    rewrite Hm. simpl. unfold dict_get. rewrite Hx. simpl.
    destruct (IH (if bool_decide (x ∈ acc) then acc else acc ++ [x]))
      as (ms & -> & Hms).
    { intros k' Hk'. apply H. by right. }
    exists ms. split; [done|]. intros y. rewrite Hms. split.
    + intros [Hy|(k' & m' & Hk' & Hm' & Hy)].
      * case_bool_decide; [by left|].
        apply elem_of_app in Hy as [?| ->%list_elem_of_singleton]; [by left|].
        right. exists k, m. split_and!; [by left|done..].
      * right. exists k', m'. split_and!; [by right|done..].
    + intros [Hy|(k' & m' & [->|Hk']%elem_of_cons & Hm' & Hy)].
      * left. case_bool_decide; [done|]. apply elem_of_app. by left.
      * left. rewrite Hm in Hm'. injection Hm' as <-.
        rewrite Hx in Hy. injection Hy as <-.
        case_bool_decide; [done|]. apply elem_of_app. right. by left.
      * right. eauto.
Qed.

Lemma _get_metrics_members ds ms :
  _get_metrics ds = Ok ms ->
  NoDup ms /\
  forall x, x ∈ ms <->
    exists var meta,
      var ∈ default_variables ds /\ _get_meta ds var = Ok meta /\
      meta !! "metric" = Some x.
Proof.
  intros H. split; [by eapply _get_metrics_NoDup|].
  unfold _get_metrics in H. rewrite _get_varmeta_default in H.
  destruct (comprehension ds (default_variables ds) []) as [d|] eqn:Hd;
    [|done].
  simpl in H.
  apply comprehension_Ok in Hd as (Hvals & _ & Hkeys & _ & _).
  destruct (metrics_loop_spec d d.*1 []) as (ms' & Hms' & Hspec).
  { intros k Hk. apply Hkeys in Hk as [?%elem_of_nil|Hk]; [done|].
    destruct (Hvals k Hk) as (m & Hm & Hget).
    destruct (_get_meta_metric _ _ _ Hm) as [x Hx]. eauto. }
  rewrite Hms' in H. injection H as <-.
  intros x. rewrite Hspec. split.
  - intros [?%elem_of_nil|(k & m & Hk & Hget & Hx)]; [done|].
    apply Hkeys in Hk as [?%elem_of_nil|Hk]; [done|].
    destruct (Hvals k Hk) as (m' & Hm' & Hget').
    rewrite Hget in Hget'. injection Hget' as <-. eauto.
  - intros (var & meta & Hvar & Hmeta & Hx). right.
    destruct (Hvals var Hvar) as (m' & Hm' & Hget').
    rewrite Hmeta in Hm'. injection Hm' as <-.
    exists var, meta. split_and!; [|done..]. apply Hkeys. by right.
Qed.

(** X7: [_get_metrics] lists, each once, the metrics of the variables
    that [_get_varmeta] takes by default. *)
Theorem X7_get_metrics_members ds ms :
  _get_metrics ds = Ok ms ->
  NoDup ms /\
  forall x, x ∈ ms <->
    exists var meta,
      var ∈ default_variables ds /\ _get_meta ds var = Ok meta /\
      meta !! "metric" = Some x.
Proof. apply _get_metrics_members. Qed.

Lemma filter_filter_bool {A} (f g : A -> bool) l :
  List.filter g (List.filter f l) = List.filter (fun x => f x && g x) l.
Proof.
  induction l as [|x l IH]; simpl; [done|].
  destruct (f x); simpl; [|done]. destruct (g x); by rewrite IH.
Qed.

Lemma get_metrics_filter ds :
  get_metrics ds =
    (metrics ← _get_metrics ds;
     Ok (if bool_decide (VStr "tau" ∈ metrics)
         then List.filter
                (fun x => is_not (VStr "tau") x && is_not (VStr "p_tau") x)
                metrics
         else metrics)).
Proof.
  unfold get_metrics.
  destruct (_get_metrics ds) as [metrics|] eqn:Hms; [|done].
  apply _get_metrics_NoDup in Hms as Hnd. simpl. f_equal.
  unfold try_except, mbind, ST_bind, metrics_remove.
  case_bool_decide as Htau.
  - rewrite list_remove_filter by done.
    rewrite <- filter_filter_bool.
    set (m1 := List.filter _ metrics).
    assert (NoDup m1) as Hnd1 by (by apply NoDup_filter_bool).
    destruct (decide (VStr "p_tau" ∈ m1)) as [Hp|Hp].
    + by rewrite list_remove_filter.
    + rewrite list_remove_absent by done. simpl.
      symmetry. by apply filter_absent.
  - by rewrite list_remove_absent.
Qed.


(** X8: [get_metrics] returns the metrics of [_get_metrics] unchanged
    when [tau] is not among them, and without [tau] and [p_tau] when it
    is; the other metrics keep their places, and [get_metrics] raises
    what [_get_metrics] raises. *)
Theorem X8_get_metrics_filter ds :
  get_metrics ds =
    (metrics ← _get_metrics ds;
     Ok (if bool_decide (VStr "tau" ∈ metrics)
         then List.filter
                (fun x => is_not (VStr "tau") x && is_not (VStr "p_tau") x)
                metrics
         else metrics)).
Proof. apply get_metrics_filter. Qed.

(** X9: [get_metrics] raises exactly when one of the variables that
    [_get_varmeta] takes by default cannot be resolved, and then it
    raises what [_get_meta] raises for the first of them. *)
Theorem X9_get_metrics_raises ds e :
  get_metrics ds = Raise e <->
  exists good bad rest,
    default_variables ds = good ++ bad :: rest /\
    (forall var, var ∈ good -> exists m, _get_meta ds var = Ok m) /\
    _get_meta ds bad = Raise e.
Proof.
  rewrite get_metrics_filter. unfold _get_metrics.
  rewrite _get_varmeta_default. split.
  - destruct (comprehension ds (default_variables ds) []) as [d|e'] eqn:Hd;
      simpl.
    + apply comprehension_Ok in Hd as (Hvals & _ & Hkeys & _ & _).
      destruct (metrics_loop_spec d d.*1 []) as (ms' & -> & _); [|done].
      intros k Hk. apply Hkeys in Hk as [?%elem_of_nil|Hk]; [done|].
      destruct (Hvals k Hk) as (m & Hm & Hget).
      destruct (_get_meta_metric _ _ _ Hm) as [x Hx]. eauto.
    + intros [= ->]. by eapply comprehension_Raise.
  - intros (good & bad & rest & -> & Hgood & Hbad).
    by rewrite (comprehension_raises ds good bad rest e).
Qed.

End metrics_more.

(** ** [_get_var] and [load] *)

Section get_var_more.

Lemma begins_I_lower p p' : forall s,
  Char.lower <$> p = Char.lower <$> p' -> begins_I p s = begins_I p' s.
Proof.
  revert p'. induction p as [|c p IH]; intros [|c' p'] s H; try done.
  rewrite !fmap_cons in H. injection H as Hc Hp.
  destruct s as [|ch s]; simpl; [done|].
  by rewrite Hc, (IH p' s Hp).
Qed.

(** X11: two metric names without characters that have a meaning of
    their own in a pattern, neither of them [n_obs], that differ in letter
    case only make [_get_var] return the same variables. *)
Theorem X11_get_var_letter_case ds metric metric' :
  plain metric -> plain metric' ->
  metric <> "n_obs" -> metric' <> "n_obs" ->
  Char.lower <$> chars metric = Char.lower <$> chars metric' ->
  _get_var ds metric = _get_var ds metric'.
Proof.
  intros Hp Hp' Hn Hn' Hlow. unfold _get_var.
  rewrite !bool_decide_false by done. rewrite !select_plain by done.
  f_equal. apply filter_ext. intros var. unfold begins_with_I.
  apply begins_I_lower. rewrite !chars_app, !fmap_app. by rewrite Hlow.
Qed.

Lemma begins_I_app p s : begins_I p (p ++ s) = true.
Proof.
  induction p as [|c p IH]; simpl; [done|].
  by rewrite bool_decide_true, IH.
Qed.

Lemma begins_I_length p s : begins_I p s = true -> length p <= length s.
Proof.
  revert s. induction p as [|c p IH]; intros [|ch s]; simpl; try done.
  - lia.
  - intros [_ H]%andb_true_iff. apply IH in H. lia.
Qed.

Lemma shape_n_obs :
  ~ exists g1 g2 g3 g4 g5 tl, between_shape (chars "n_obs") g1 g2 g3 g4 g5 tl.
Proof.
  intros H. apply pattern_match_iff in H as [m Hm].
  by rewrite pattern_n_obs in Hm.
Qed.

(** The name of a resolved variable begins with its metric and
    [_between], but for the variable [n_obs]. *)
Lemma metric_begins ds var meta metric :
  _get_meta ds var = Ok meta ->
  meta !! "metric" = Some (VStr metric) ->
  (var = "n_obs" /\ metric = "n_obs") \/
  (var <> "n_obs" /\ var ∈ data_vars ds /\
   begins_with_I (metric +:+ "_between") var = true).
Proof.
  intros H Hm. apply _get_meta_Ok_shape in H as [Hin [[-> ->]|H]].
  - left. split; [done|]. revert Hm. resolved_lookup. by intros [= <-].
  - destruct H as (g1 & g2 & g3 & g4 & g5 & tl & Hs & ->).
    revert Hm. resolved_lookup. intros [= <-]. right.
    pose proof Hs as (Hvar & _). split_and!; [|done|].
    + intros ->. apply shape_n_obs. eauto 10.
    + unfold begins_with_I. rewrite chars_app, chars_of_list, Hvar.
      change (chars "_between_") with (chars "_between" ++ chars "_").
      rewrite <- !app_assoc, (app_assoc g1). apply begins_I_app.
Qed.

End get_var_more.

Section load_more.

(** X12: [_get_var] finds a variable from the metric [_get_meta] reads
    from its name, when the metric has no character with a meaning of its
    own in a pattern; a variable other than [n_obs] whose metric reads
    [n_obs] is left aside. *)
Theorem X12_get_var_finds ds var meta metric :
  _get_meta ds var = Ok meta ->
  meta !! "metric" = Some (VStr metric) ->
  plain metric ->
  var = "n_obs" \/ metric <> "n_obs" ->
  exists l, _get_var ds metric = Some l /\ var ∈ l.
Proof.
  intros H Hm Hp Hn. unfold _get_var.
  destruct (metric_begins _ _ _ _ H Hm) as [[-> ->]|(Hv & Hin & Hb)].
  - rewrite bool_decide_true by done. eexists. split; [done|]. by left.
  - destruct Hn as [->|Hn]; [done|].
    rewrite bool_decide_false by done. rewrite select_plain by done.
    eexists. split; [done|]. by apply elem_of_filter_bool.
Qed.

Lemma filter_none {A} (f : A -> bool) l :
  (forall x, x ∈ l -> f x = false) -> List.filter f l = [].
Proof.
  induction l as [|y l IH]; simpl; intros H; [done|].
  rewrite H by (by left). apply IH. intros x Hx. apply H. by right.
Qed.

(** X13: for a metric that no data variable begins with, the metadata
    step of [load] is [_get_varmeta] with no variables given: [_get_var]
    returns the empty list, which [_get_varmeta] takes like [None], so that
    the outcome is the one for all data variables but the indices. *)
Theorem X13_load_no_variable ds metric :
  plain metric -> metric <> "n_obs" ->
  (forall var, var ∈ data_vars ds ->
     begins_with_I (metric +:+ "_between") var = false) ->
  load_varmeta ds metric = Some (_get_varmeta ds None).
Proof.
  intros Hp Hn Hnone. unfold load_varmeta, _get_var.
  rewrite bool_decide_false by done. rewrite select_plain by done.
  by rewrite filter_none.
Qed.

(** X14: [load] raises for the metric [n_obs] when the dataset has no
    variable of that name. *)
Theorem X14_load_n_obs_absent ds :
  "n_obs" ∉ data_vars ds ->
  load_varmeta ds "n_obs" = Some (Raise (Exception (not_contained "n_obs"))).
Proof.
  intros Hin.
  assert (_get_meta ds "n_obs" = Raise (Exception (not_contained "n_obs")))
    as H by (unfold _get_meta; by rewrite _get_meta_body_absent).
  unfold load_varmeta, _get_var. rewrite bool_decide_true by done.
  cbn [mbind option_bind _get_varmeta comprehension]. by rewrite H.
Qed.

Lemma begins_not_index metric var :
  begins_with_I (metric +:+ "_between") var = true -> is_index var = false.
Proof.
  intros Hb%begins_I_length. rewrite chars_app, length_app in Hb.
  apply bool_decide_eq_false. intros Hi.
  assert (length (chars var) = 3) as Hl.
  { set_unfold in Hi. by destruct Hi as [->|[->|[->|[]]]]. }
  rewrite Hl in Hb. simpl in Hb. lia.
Qed.

Lemma default_variables_elem ds var :
  NoDup (data_vars ds) ->
  var ∈ default_variables ds <-> var ∈ data_vars ds /\ is_index var = false.
Proof.
  intros Hnd. unfold default_variables.
  rewrite remove_indices_filter; [|done|]. 
  - simpl. rewrite elem_of_filter_bool. unfold is_index.
    by rewrite negb_true_iff.
  - apply (bool_decide_unpack _). vm_compute. exact I.
Qed.

(** X15: what [plot_all] does with each metric: a metric that
    [get_metrics] lists, other than [n_obs] and without characters that
    have a meaning of their own in a pattern, makes [load] return
    metadata that is not empty, for the data variables that begin with
    the metric and [_between], in the order of the dataset. *)
Theorem X15_load_listed_metric ds metrics metric :
  NoDup (data_vars ds) ->
  get_metrics ds = Ok metrics ->
  VStr metric ∈ metrics ->
  plain metric -> metric <> "n_obs" ->
  exists d, load_varmeta ds metric = Some (Ok d) /\
    d <> [] /\
    d.*1 = List.filter (begins_with_I (metric +:+ "_between")) (data_vars ds) /\
    forall var, var ∈ d.*1 -> odict_get d var = _get_meta ds var.
Proof.
  intros Hnd Hget Hin Hp Hn.
  rewrite get_metrics_filter in Hget.
  destruct (_get_metrics ds) as [ms|] eqn:Hms; [|done]. simpl in Hget.
  assert (VStr metric ∈ ms) as Hin'.
  { injection Hget as <-. destruct (bool_decide _); [|done].
    by apply elem_of_filter_bool in Hin as [? _]. }
  destruct (_get_metrics_members _ _ Hms) as [_ Hmem].
  apply Hmem in Hin' as (var & meta & Hvar & Hmeta & Hmetric).
  unfold _get_metrics in Hms. rewrite _get_varmeta_default in Hms.
  destruct (comprehension ds (default_variables ds) []) as [d0|] eqn:Hd0;
    [|done].
  apply comprehension_Ok in Hd0 as (Hvals & _).
  set (vs := List.filter (begins_with_I (metric +:+ "_between"))
               (data_vars ds)).
  assert (var ∈ vs) as Hvs.
  { destruct (metric_begins _ _ _ _ Hmeta Hmetric) as [[_ ->]|(_ & ? & ?)];
      [done|]. by apply elem_of_filter_bool. }
  assert (forall v, v ∈ vs -> exists m, _get_meta ds v = Ok m) as Hret.
  { intros v [Hv Hb]%elem_of_filter_bool.
    destruct (Hvals v) as (m & Hm & _); [|by eauto].
    apply default_variables_elem; [done|]. split; [done|].
    by eapply begins_not_index. }
  destruct (comprehension_returns ds vs [] Hret) as [d Hd].
  assert (load_varmeta ds metric = Some (Ok d)) as Hload.
  { unfold load_varmeta, _get_var. rewrite bool_decide_false by done.
    rewrite select_plain by done. fold vs. simpl. rewrite <- Hd.
    unfold _get_varmeta. destruct vs; [|done]. by apply elem_of_nil in Hvs. }
  exists d. split; [done|].
  apply comprehension_Ok in Hd as (Hvals' & _ & _ & _ & Hord).
  assert (d.*1 = vs) as Hkeys.
  { rewrite Hord; [done| |].
    - by apply NoDup_filter_bool.
    - intros v _. apply not_elem_of_nil. }
  split_and!; [|done|].
  - intros ->. simpl in Hkeys. rewrite <- Hkeys in Hvs.
    by apply elem_of_nil in Hvs.
  - intros v Hv. rewrite Hkeys in Hv.
    destruct (Hvals' v Hv) as (m & -> & ->). done.
Qed.

End load_more.

(** ** The title of [plot.boxplot] *)

Section title.

Lemma title_lines_text n names : forall lines line,
  concat (chars <$> title_lines n lines line names) =
  concat (chars <$> lines) ++ chars line ++ concat (chars ∘ piece <$> names).
Proof.
  induction names as [|name names IH]; intros lines line; simpl.
  - rewrite fmap_app, concat_app. simpl. by rewrite !app_nil_r.
  - destruct (_ <=? _)%nat; rewrite IH.
    + fold (piece name). by rewrite chars_app, <- app_assoc.
    + rewrite fmap_app, concat_app. simpl. fold (piece name).
      by rewrite app_nil_r, <- !app_assoc.
Qed.

(** X16: breaking the title into lines loses and adds no text: the lines
    of the title, one after the other, are the first line and then each
    name followed by a comma and a space. *)
Theorem X16_title_lines_text n header names :
  concat (chars <$> title_lines n [] header names) =
  chars header ++ concat (chars ∘ piece <$> names).
Proof. apply title_lines_text. Qed.

Lemma title_lines_width (P : string -> Prop) n names : forall lines line,
  (forall l, (String.length l <= n)%nat -> P l) ->
  (forall name, name ∈ names -> P (piece name)) ->
  Forall P lines -> P line ->
  Forall P (title_lines n lines line names).
Proof.
  induction names as [|name names IH]; intros lines line Hshort Hpiece Hl Hc;
    simpl.
  - apply Forall_app. split; [done|]. by apply Forall_singleton.
  - destruct (_ <=? _)%nat eqn:Hfit.
    + apply IH; [done| |done|].
      * intros x Hx. apply Hpiece. by right.
      * apply Hshort. by apply Nat.leb_le.
    + apply IH; [done| | |].
      * intros x Hx. apply Hpiece. by right.
      * apply Forall_app. split; [done|]. by apply Forall_singleton.
      * apply Hpiece. by left.
Qed.

(** X17: a line of the title is longer than [max_title_len] only when it
    is the first line as it was given, or a single name with its comma and
    space: no line grows beyond the bound by appending. *)
Theorem X17_title_lines_width n header names :
  Forall (fun l =>
            (String.length l <= n)%nat \/ l = header \/
            exists name, name ∈ names /\ l = piece name)
    (title_lines n [] header names).
Proof.
  apply title_lines_width.
  - intros l ?. by left.
  - intros name ?. right. right. by exists name.
  - constructor.
  - right. by left.
Qed.

Lemma title_lines_snoc n last pre : forall lines line,
  exists ls l,
    title_lines n lines line pre = ls ++ [l] /\
    title_lines n lines line (pre ++ [last]) =
      if (String.length (l +:+ piece last) <=? n)%nat
      then ls ++ [l +:+ piece last]
      else (ls ++ [l]) ++ [piece last].
Proof.
  induction pre as [|name pre IH]; intros lines line.
  - exists lines, line. split; [done|]. simpl. fold (piece last).
    by destruct (_ <=? _)%nat.
  - simpl. destruct (_ <=? _)%nat; apply IH.
Qed.

Lemma chars_concat_snoc sep ls : forall l x,
  chars (String.concat sep (ls ++ [l +:+ x])) =
  chars (String.concat sep (ls ++ [l])) ++ chars x.
Proof.
  induction ls as [|y ls IH]; intros l x.
  - simpl. by rewrite chars_app.
  - assert (forall z, String.concat sep (y :: ls ++ [z]) =
                      y +:+ sep +:+ String.concat sep (ls ++ [z])) as E
      by (intros z; simpl; by destruct ls).
    rewrite <- !app_comm_cons, !E, !chars_app, IH.
    by rewrite <- !app_assoc.
Qed.

Lemma chars_concat_line sep ls : forall l x,
  chars (String.concat sep ((ls ++ [l]) ++ [x])) =
  chars (String.concat sep (ls ++ [l])) ++ chars sep ++ chars x.
Proof.
  induction ls as [|y ls IH]; intros l x.
  - simpl. by rewrite !chars_app.
  - assert (forall zs z, String.concat sep (y :: zs ++ [z]) =
                      y +:+ sep +:+ String.concat sep (zs ++ [z])) as E
      by (intros zs z; simpl; by destruct zs).
    rewrite <- !app_comm_cons, !E, !chars_app, IH.
    by rewrite <- !app_assoc.
Qed.

(** One name more adds the name, a comma and a space to the joined lines,
    after a line break when it does not fit on the current line. *)
Lemma joined_snoc n header pre last :
  chars (String.concat newline (title_lines n [] header (pre ++ [last]))) =
  chars (String.concat newline (title_lines n [] header pre)) ++
  chars (break_before n (current_line n header pre) last) ++
  chars last ++ chars ", ".
Proof.
  unfold current_line, break_before.
  destruct (title_lines_snoc n last pre [] header) as (ls & l & -> & ->).
  rewrite last_snoc. simpl default.
  destruct (_ <=? _)%nat.
  - rewrite chars_concat_snoc. unfold piece. by rewrite chars_app.
  - rewrite chars_concat_line. unfold piece. by rewrite chars_app.
Qed.

Lemma string_of_chars (s : string) : string_of_list_ascii (chars s) = s.
Proof. apply string_of_list_ascii_of_string. Qed.

Lemma string_of_app (a b : list ascii) :
  string_of_list_ascii (a ++ b) =
  string_of_list_ascii a +:+ string_of_list_ascii b.
Proof. induction a as [|c a IH]; simpl; [done|]. by rewrite IH. Qed.

Lemma cut2_app (a : list ascii) c1 c2 s :
  chars s = a ++ [c1; c2] -> cut2 s = string_of_list_ascii a.
Proof.
  intros E. unfold cut2. rewrite E, length_app. simpl.
  replace (length a + 2 - 2)%nat with (length a) by lia.
  by rewrite take_app_length.
Qed.

Lemma starts_with_app sep b : starts_with sep (sep ++ b) = true.
Proof.
  induction sep as [|c sep IH]; simpl; [done|].
  by rewrite bool_decide_true.
Qed.

Lemma rsplit1_None sep s : occurs sep s = false -> rsplit1 sep s = None.
Proof.
  induction s as [|c s IH]; [done|].
  cbn [occurs rsplit1]. intros [Hs Ho]%orb_false_iff.
  by rewrite (IH Ho), Hs.
Qed.

(** [rsplit] cuts at the last separator. *)
Lemma rsplit1_last sep a b :
  sep <> [] -> occurs sep (drop 1 (sep ++ b)) = false ->
  rsplit1 sep (a ++ sep ++ b) = Some (a, b).
Proof.
  intros Hsep Ho. induction a as [|c a IH].
  - destruct sep as [|c sep]; [done|].
    change (occurs (c :: sep) (sep ++ b) = false) in Ho.
    cbn [app rsplit1]. rewrite (rsplit1_None _ _ Ho).
    change (c :: sep ++ b) with ((c :: sep) ++ b).
    rewrite starts_with_app. by rewrite drop_app_length.
  - cbn [app rsplit1]. by rewrite IH.
Qed.

(** X18: with two names or more, and no comma followed by a space inside
    the last name, the title is the lines of the names before the last
    without their last comma and space, then [ and ], then the last name,
    which a line break precedes exactly when the name with its comma and
    space does not fit on the current line. *)
Theorem X18_boxplot_title_and boxplot_title_len columns metric
    ref_pretty_name ref_version_pretty_name pre last :
  pre <> [] ->
  occurs (chars ", ") (chars last) = false ->
  boxplot_title boxplot_title_len columns metric ref_pretty_name
    ref_version_pretty_name (pre ++ [last]) =
  wrapped (boxplot_title_len * columns)
    (title_header metric ref_pretty_name ref_version_pretty_name) pre
  +:+ " and " +:+
  break_before (boxplot_title_len * columns)
    (current_line (boxplot_title_len * columns)
       (title_header metric ref_pretty_name ref_version_pretty_name) pre)
    last
  +:+ last.
Proof.
  intros Hpre Hlast.
  set (n := (boxplot_title_len * columns)%nat).
  set (header := title_header metric ref_pretty_name ref_version_pretty_name).
  pose proof (joined_snoc n header pre last) as Hj.
  set (nl := break_before n (current_line n header pre) last) in *.
  assert (nl = EmptyString \/ nl = newline) as Hnl.
  { unfold nl, break_before. destruct (_ <=? _)%nat; eauto. }
  assert (exists a, chars (String.concat newline (title_lines n [] header pre))
                    = a ++ chars ", ") as [a Ha].
  { destruct (exists_last Hpre) as (pre' & p & ->).
    rewrite (joined_snoc n header pre' p).
    eexists. by rewrite !app_assoc. }
  unfold boxplot_title, wrapped. fold n header.
  rewrite (cut2_app a "," " " _ Ha).
  rewrite Ha, <- !app_assoc, !app_assoc in Hj.
  rewrite (cut2_app _ "," " " _ Hj).
  unfold last_comma_to_and. rewrite chars_of_list, <- !app_assoc.
  rewrite rsplit1_last; [|done|].
  - by rewrite !string_of_app, !string_of_chars.
  - cbn [chars list_ascii_of_string app drop occurs starts_with].
    rewrite bool_decide_false by done. cbn [andb orb].
    destruct Hnl as [-> | ->]; [done|].
    cbn [newline chars list_ascii_of_string app occurs starts_with].
    rewrite bool_decide_false by done. done.
Qed.

End title.

(** ** What a returned dict holds *)

Section returned.

(** X19: when [_get_meta] returns for a name that the pattern matches,
    [metric], [ref_no], [ref], [ds_no] and [ds] are the groups 1 to 5 of
    the match, in this order, groups 2 and 4 being strings of digits read
    as decimal numbers; the groups are the runs of the name between the
    separators of the pattern. *)
Theorem X19_between_fields ds var m meta :
  Re.match_ false pattern (chars var) = Some m ->
  _get_meta ds var = Ok meta ->
  exists g1 g2 g3 g4 g5,
    (Re.group m 1 = Some g1 /\ Re.group m 2 = Some g2 /\
     Re.group m 3 = Some g3 /\ Re.group m 4 = Some g4 /\
     Re.group m 5 = Some g5) /\
    chars var = chars g1 ++ chars "_between_" ++ chars g2 ++ chars "-" ++
                chars g3 ++ chars "_" ++ chars g4 ++ chars "-" ++
                chars g5 ++ Re.rest m /\
    is_decimal g2 /\ is_decimal g4 /\
    meta !! "metric" = Some (VStr g1) /\
    meta !! "ref_no" = Some (VInt (decimal g2)) /\
    meta !! "ref" = Some (VStr g3) /\
    meta !! "ds_no" = Some (VInt (decimal g4)) /\
    meta !! "ds" = Some (VStr g5).
Proof.
  intros Hm H.
  destruct (pattern_match_inv _ _ Hm)
    as (g1 & g2 & g3 & g4 & g5 & (Hvar & _ & H2 & _ & H4 & _) & Hc).
  assert (decodes var (string_of_list_ascii g1) (digits_value g2)
            (string_of_list_ascii g3) (digits_value g4)
            (string_of_list_ascii g5)) as Hd
    by (eapply decodes_between; eassumption).
  destruct (_get_meta_Ok_inv _ _ _ H) as [Hin _].
  destruct (_get_meta_decodes _ _ _ _ _ _ _ Hin Hd) as [E _].
  rewrite E in H. apply outcome_Ok in H as (_ & _ & ->).
  exists (string_of_list_ascii g1), (string_of_list_ascii g2),
    (string_of_list_ascii g3), (string_of_list_ascii g4),
    (string_of_list_ascii g5).
  unfold Re.group. rewrite Hc. map_lookup.
  split; [done|].
  unfold is_decimal, decimal. rewrite !chars_of_list.
  destruct H2, H4.
  do 3 (split; [done|]).
  split_and!; by resolved_lookup.
Qed.

(** What [named] says of the attributes. *)
Lemma named_true ds k :
  named ds k = true ->
  exists p, attrs ds !! pretty_key k = Some p /\ pretty_name_of ds k = p /\
    match attrs ds !! version_key k with
    | None =>
        version_of ds k = "unknown" /\
        version_pretty_name_of ds k = "unknown version"
    | Some v =>
        version_of ds k = v /\
        exists q, attrs ds !! version_pretty_key k = Some q /\
          version_pretty_name_of ds k = q
    end.
Proof.
  unfold named, pretty_name_of, version_of, version_pretty_name_of.
  destruct (attrs ds !! pretty_key k) as [p|]; [|done].
  intros H. exists p. split_and!; [done..|].
  destruct (attrs ds !! version_key k) as [v|]; [|done].
  apply bool_decide_eq_true in H as [q Hq]. rewrite Hq. eauto.
Qed.

Lemma returned_names ds var ref_no ds_no k :
  _get_meta_reads ds var = resolved_reads ds ref_no ds_no ->
  named ds k = true ->
  exists p, attrs ds !! pretty_key k = Some p /\ pretty_name_of ds k = p /\
    match attrs ds !! version_key k with
    | None =>
        version_of ds k = "unknown" /\
        version_pretty_name_of ds k = "unknown version" /\
        version_pretty_key k ∉ _get_meta_reads ds var
    | Some v =>
        version_of ds k = v /\
        exists q, attrs ds !! version_pretty_key k = Some q /\
          version_pretty_name_of ds k = q
    end.
Proof.
  intros R Hk. destruct (named_true _ _ Hk) as (p & Hp & Hpn & Hv).
  exists p. split_and!; [done..|].
  destruct (attrs ds !! version_key k) as [v|] eqn:Ev; [done|].
  destruct Hv as [? ?]. split_and!; [done..|].
  rewrite R. unfold resolved_reads. intros Hr.
  apply elem_of_app in Hr as [Hr|Hr].
  - apply version_pretty_key_read in Hr as [_ [v Hv]]. congruence.
  - destruct (named ds ds_no); [|by apply elem_of_nil in Hr].
    apply version_pretty_key_read in Hr as [_ [v Hv]]. congruence.
Qed.

(** X20: in a dict returned by [_get_meta] the names of each role come
    from the attributes of the dataset only: with the number [k] of the
    role, the pretty name is [ds.attrs["val_dc_pretty_name" + str(k-1)]];
    when the key ["val_dc_version" + str(k-1)] is there, the version is
    its value and the version pretty name is
    [ds.attrs["val_dc_version_pretty_name" + str(k-1)]]; when it is not,
    they are ["unknown"] and ["unknown version"], and the key
    ["val_dc_version_pretty_name" + str(k-1)] was never subscripted. *)
Theorem X20_names_from_attrs ds var meta :
  _get_meta ds var = Ok meta ->
  forall role, role ∈ ["ref"; "ds"] ->
  exists k p,
    meta !! (role +:+ "_no") = Some (VInt k) /\
    attrs ds !! ("val_dc_pretty_name" +:+ str (k - 1)) = Some p /\
    meta !! (role +:+ "_pretty_name") = Some (VStr p) /\
    match attrs ds !! ("val_dc_version" +:+ str (k - 1)) with
    | None =>
        meta !! (role +:+ "_version") = Some (VStr "unknown") /\
        meta !! (role +:+ "_version_pretty_name") =
          Some (VStr "unknown version") /\
        ("val_dc_version_pretty_name" +:+ str (k - 1))
          ∉ _get_meta_reads ds var
    | Some v =>
        meta !! (role +:+ "_version") = Some (VStr v) /\
        exists q,
          attrs ds !! ("val_dc_version_pretty_name" +:+ str (k - 1)) =
            Some q /\
          meta !! (role +:+ "_version_pretty_name") = Some (VStr q)
    end.
Proof.
  intros H.
  apply _get_meta_Ok_inv in H
    as (Hin & metric & ref_no & ref & ds_no & dsn & Hd & [Hds Href] & ->).
  destruct (_get_meta_decodes _ _ _ _ _ _ _ Hin Hd) as [_ R].
  intros role Hrole. role_cases Hrole.
  - destruct (returned_names _ _ _ _ _ R Href) as (p & Hp & Hpn & Hv).
    exists ref_no, p. fold (pretty_key ref_no) (version_key ref_no)
      (version_pretty_key ref_no).
    resolved_lookup. split_and!; [done|done|by rewrite Hpn|].
    destruct (attrs ds !! version_key ref_no) as [v|].
    + destruct Hv as (-> & q & Hq & ->). eauto.
    + by destruct Hv as (-> & -> & ?).
  - destruct (returned_names _ _ _ _ _ R Hds) as (p & Hp & Hpn & Hv).
    exists ds_no, p. fold (pretty_key ds_no) (version_key ds_no)
      (version_pretty_key ds_no).
    resolved_lookup. split_and!; [done|done|by rewrite Hpn|].
    destruct (attrs ds !! version_key ds_no) as [v|].
    + destruct Hv as (-> & q & Hq & ->). eauto.
    + by destruct Hv as (-> & -> & ?).
Qed.

(** X21: for a dataset that holds [n_obs] and has the attribute
    [val_dc_pretty_name0], and [val_dc_version_pretty_name0] too when it
    has [val_dc_version0], [_get_meta(ds, "n_obs")] returns a dict with
    the metric [n_obs], the numbers 1 and the names [GLDAS]. *)
Theorem X21_n_obs ds :
  "n_obs" ∈ data_vars ds ->
  is_Some (attrs ds !! "val_dc_pretty_name0") ->
  (is_Some (attrs ds !! "val_dc_version0") ->
   is_Some (attrs ds !! "val_dc_version_pretty_name0")) ->
  exists meta, _get_meta ds "n_obs" = Ok meta /\
    meta !! "metric" = Some (VStr "n_obs") /\
    meta !! "ref_no" = Some (VInt 1) /\
    meta !! "ds_no" = Some (VInt 1) /\
    meta !! "ref" = Some (VStr "GLDAS") /\
    meta !! "ds" = Some (VStr "GLDAS").
Proof.
  intros Hin [p Hp] Hv.
  assert (named ds 1 = true) as Hn.
  { unfold named.
    change (pretty_key 1) with "val_dc_pretty_name0".
    change (version_key 1) with "val_dc_version0".
    change (version_pretty_key 1) with "val_dc_version_pretty_name0".
    rewrite Hp. destruct (attrs ds !! "val_dc_version0"); [|done].
    apply bool_decide_eq_true. apply Hv. eauto. }
  destruct (_get_meta_decodes ds "n_obs" _ _ _ _ _ Hin
              (decodes_n_obs _ eq_refl)) as [-> _].
  unfold outcome. rewrite Hn. simpl.
  eexists. split; [done|]. by resolved_lookup.
Qed.

End returned.

(** ** Examples *)

Section more_examples.

Ltac by_compute := apply (bool_decide_unpack _); vm_compute; exact I.

Lemma example_var_meta : _get_meta example_ds example_var = Ok example_meta.
Proof. vm_compute. reflexivity. Defined.

Lemma example_meta_metric : example_meta !! "metric" = Some (VStr "R").
Proof. vm_compute. reflexivity. Defined.

Lemma example_NoDup : NoDup (data_vars example_ds).
Proof. by_compute. Defined.

Lemma example__get_metrics :
  _get_metrics example_ds =
    Ok [VStr "n_obs"; VStr "R"; VStr "rmsd"; VStr "p_tau"].
Proof. vm_compute. reflexivity. Defined.

Lemma X2_witness :
  exists metric ref_no ref ds_no dsn,
    (example_meta !! "metric" = Some (VStr metric) /\
     example_meta !! "ref_no" = Some (VInt ref_no) /\
     example_meta !! "ref" = Some (VStr ref) /\
     example_meta !! "ds_no" = Some (VInt ds_no) /\
     example_meta !! "ds" = Some (VStr dsn)) /\
    (chars metric <> [] /\
     forallb (fun c => negb (Char.is_digit c)) (chars metric) = true) /\
    (0 <= ref_no /\ 0 <= ds_no)%Z /\
    (chars ref <> [] /\
     forallb (fun c => negb (Char.is_space c)) (chars ref) = true) /\
    (chars dsn <> [] /\
     forallb (fun c => negb (Char.is_space c)) (chars dsn) = true).
Proof.
  apply (X2_get_meta_record example_ds example_var example_meta
           example_var_meta).
Defined.

Lemma X3_witness :
  _get_meta other_ds example_var = _get_meta example_ds example_var.
Proof.
  apply (X3_get_meta_attrs example_ds other_ds example_var).
  - split; intros _; by_compute.
  - apply Forall_forall. by_compute.
Defined.

Lemma X4_witness :
  default_variables example_ds =
    List.filter (fun v => negb (is_index v)) (data_vars example_ds) /\
  default_warnings example_ds =
    (fun index => index +:+ " is not in variables.") <$>
      List.filter
        (fun index => negb (bool_decide (index ∈ data_vars example_ds)))
        ["lat"; "lon"; "gpi"].
Proof. apply (X4_default_variables example_ds example_NoDup). Defined.

Lemma example_resolves :
  forall var, var ∈ [example_var; "n_obs"] ->
    exists m, _get_meta example_ds var = Ok m.
Proof.
  intros var Hv. apply elem_of_cons in Hv as [->|Hv];
    [|apply list_elem_of_singleton in Hv as ->];
    eexists; vm_compute; reflexivity.
Defined.

Lemma X5_witness :
  exists d, _get_varmeta example_ds (Some [example_var; "n_obs"]) = Ok d /\
    (forall var, var ∈ [example_var; "n_obs"] ->
       odict_get d var = _get_meta example_ds var) /\
    (forall k, k ∈ d.*1 <-> k ∈ [example_var; "n_obs"]) /\
    NoDup d.*1 /\
    (NoDup [example_var; "n_obs"] -> d.*1 = [example_var; "n_obs"]).
Proof.
  apply (X5_get_varmeta_returns example_ds [example_var; "n_obs"]).
  - discriminate.
  - exact example_resolves.
Defined.

Lemma odd_resolves :
  forall var, var ∈ ["n_obs"] -> exists m, _get_meta odd_ds var = Ok m.
Proof.
  intros var Hv. apply list_elem_of_singleton in Hv as ->.
  eexists. vm_compute. reflexivity.
Defined.

Lemma X6_witness :
  _get_varmeta odd_ds (Some (["n_obs"] ++ "not_a_valid_name" :: ["n_obs"])) =
    Raise (Exception (no_match "not_a_valid_name")).
Proof.
  apply (X6_get_varmeta_raises odd_ds ["n_obs"] "not_a_valid_name" ["n_obs"]).
  - exact odd_resolves.
  - vm_compute. reflexivity.
Defined.

Lemma X7_witness :
  NoDup [VStr "n_obs"; VStr "R"; VStr "rmsd"; VStr "p_tau"] /\
  forall x, x ∈ [VStr "n_obs"; VStr "R"; VStr "rmsd"; VStr "p_tau"] <->
    exists var meta,
      var ∈ default_variables example_ds /\
      _get_meta example_ds var = Ok meta /\
      meta !! "metric" = Some x.
Proof.
  apply (X7_get_metrics_members example_ds _ example__get_metrics).
Defined.

Lemma X11_witness : _get_var example_ds "R" = _get_var example_ds "r".
Proof.
  apply (X11_get_var_letter_case example_ds "R" "r").
  - reflexivity.
  - reflexivity.
  - discriminate.
  - discriminate.
  - vm_compute. reflexivity.
Defined.

Lemma X12_witness :
  exists l, _get_var example_ds "R" = Some l /\ example_var ∈ l.
Proof.
  apply (X12_get_var_finds example_ds example_var example_meta "R").
  - exact example_var_meta.
  - exact example_meta_metric.
  - reflexivity.
  - right. discriminate.
Defined.

Lemma X13_witness :
  load_varmeta example_ds "bias" = Some (_get_varmeta example_ds None).
Proof.
  apply (X13_load_no_variable example_ds "bias").
  - reflexivity.
  - discriminate.
  - apply Forall_forall. by_compute.
Defined.

Lemma X14_witness :
  load_varmeta empty_ds "n_obs" =
    Some (Raise (Exception (not_contained "n_obs"))).
Proof. apply (X14_load_n_obs_absent empty_ds). apply not_elem_of_nil. Defined.

Lemma X15_witness :
  exists d, load_varmeta example_ds "R" = Some (Ok d) /\
    d <> [] /\
    d.*1 = List.filter (begins_with_I ("R" +:+ "_between"))
             (data_vars example_ds) /\
    forall var, var ∈ d.*1 -> odict_get d var = _get_meta example_ds var.
Proof.
  apply (X15_load_listed_metric example_ds
           [VStr "n_obs"; VStr "R"; VStr "rmsd"; VStr "p_tau"] "R").
  - exact example_NoDup.
  - vm_compute. reflexivity.
  - by_compute.
  - reflexivity.
  - discriminate.
Defined.

Lemma X18_witness :
  boxplot_title 30 2 "R" "ISMN" "v1" (["SMAP"; "C3S"] ++ ["ASCAT"]) =
  wrapped (30 * 2) (title_header "R" "ISMN" "v1") ["SMAP"; "C3S"]
  +:+ " and " +:+
  break_before (30 * 2)
    (current_line (30 * 2) (title_header "R" "ISMN" "v1") ["SMAP"; "C3S"])
    "ASCAT"
  +:+ "ASCAT".
Proof.
  apply (X18_boxplot_title_and 30 2 "R" "ISMN" "v1" ["SMAP"; "C3S"] "ASCAT").
  - discriminate.
  - reflexivity.
Defined.

Lemma X19_witness :
  exists g1 g2 g3 g4 g5,
    (Re.group example_match 1 = Some g1 /\
     Re.group example_match 2 = Some g2 /\
     Re.group example_match 3 = Some g3 /\
     Re.group example_match 4 = Some g4 /\
     Re.group example_match 5 = Some g5) /\
    chars example_var =
      chars g1 ++ chars "_between_" ++ chars g2 ++ chars "-" ++
      chars g3 ++ chars "_" ++ chars g4 ++ chars "-" ++
      chars g5 ++ Re.rest example_match /\
    is_decimal g2 /\ is_decimal g4 /\
    example_meta !! "metric" = Some (VStr g1) /\
    example_meta !! "ref_no" = Some (VInt (decimal g2)) /\
    example_meta !! "ref" = Some (VStr g3) /\
    example_meta !! "ds_no" = Some (VInt (decimal g4)) /\
    example_meta !! "ds" = Some (VStr g5).
Proof.
  apply (X19_between_fields example_ds example_var example_match
           example_meta).
  - vm_compute. reflexivity.
  - exact example_var_meta.
Defined.

Lemma X20_witness :
  exists k p,
    example_meta !! ("ds" +:+ "_no") = Some (VInt k) /\
    attrs example_ds !! ("val_dc_pretty_name" +:+ str (k - 1)) = Some p /\
    example_meta !! ("ds" +:+ "_pretty_name") = Some (VStr p) /\
    match attrs example_ds !! ("val_dc_version" +:+ str (k - 1)) with
    | None =>
        example_meta !! ("ds" +:+ "_version") = Some (VStr "unknown") /\
        example_meta !! ("ds" +:+ "_version_pretty_name") =
          Some (VStr "unknown version") /\
        ("val_dc_version_pretty_name" +:+ str (k - 1))
          ∉ _get_meta_reads example_ds example_var
    | Some v =>
        example_meta !! ("ds" +:+ "_version") = Some (VStr v) /\
        exists q,
          attrs example_ds
            !! ("val_dc_version_pretty_name" +:+ str (k - 1)) = Some q /\
          example_meta !! ("ds" +:+ "_version_pretty_name") = Some (VStr q)
    end.
Proof.
  apply (X20_names_from_attrs example_ds example_var example_meta
           example_var_meta "ds").
  by_compute.
Defined.

Lemma X21_witness :
  exists meta, _get_meta n_obs_ds "n_obs" = Ok meta /\
    meta !! "metric" = Some (VStr "n_obs") /\
    meta !! "ref_no" = Some (VInt 1) /\
    meta !! "ds_no" = Some (VInt 1) /\
    meta !! "ref" = Some (VStr "GLDAS") /\
    meta !! "ds" = Some (VStr "GLDAS").
Proof.
  apply (X21_n_obs n_obs_ds).
  - by_compute.
  - by_compute.
  - intros [v Hv]. vm_compute in Hv. discriminate.
Defined.

End more_examples.
